(** * GFR fan-translation tooling: the CSV extractor and merger

    A shallow embedding of [src/transcmd.py] and [src/translations.py]
    (the functions [create_mapping_file], [build_translation_file] and
    [main] of each), together with the part of the Python runtime they
    run on: text files opened in universal-newlines mode, [csv.reader]
    and [csv.writer] of the default ("excel") dialect, and a dictionary.

    Conventions.
    - A Python [str] is a [string]; the programs only ever distinguish
      the comma, the double quote, CR and LF, every other character is
      ordinary data.
    - A file's content is the text its UTF-8 bytes decode to, before any
      newline translation.  Encoding and decoding are inverse bijections
      on well-formed files, so equality of contents is equality of bytes.
    - The file system is a finite map from paths to contents; the console
      is a list of messages, one constructor per [print] call site. *)

From Stdlib Require Import Ascii String NArith List Lia.
From stdpp Require Import base option list strings gmap.

(** ** Characters and strings *)

Definition LF : ascii := "010"%char.
Definition CR : ascii := "013"%char.
Definition COMMA : ascii := ","%char.
Definition DQUOTE : ascii := "034"%char.

Definition str1 (c : ascii) : string := String c EmptyString.
Definition CRLF : string := String CR (str1 LF).

(** ** Exceptions and results *)

Inductive csv_error_kind :=
| FieldLimit          (* "field larger than field limit (131072)" *)
| NewlineInUnquoted.  (* "new-line character seen in unquoted field ..." *)

Inductive exn :=
| FileNotFoundError (path : string)
| csv_Error (k : csv_error_kind)
| IndexError
| KeyError (key : string).

Inductive result (A : Type) :=
| Ok (a : A)
| Raise (e : exn).
Arguments Ok {A} a.
Arguments Raise {A} e.

Global Instance result_ret : MRet result := fun _ a => Ok a.

Global Instance result_bind : MBind result := fun _ _ f r =>
  match r with
  | Ok a => f a
  | Raise e => Raise e
  end.

(** ** Text files: universal newlines and line iteration *)

(** [open(path, 'r', encoding='utf-8')] leaves [newline=None]: on input
    CR LF and a lone CR are both turned into LF.  [pendingcr] records that
    the previous character was a CR, as the incremental decoder does. *)
Fixpoint translate_newlines (pendingcr : bool) (s : string) : string :=
  match s with
  | EmptyString => EmptyString
  | String c s' =>
      if Ascii.eqb c CR then String LF (translate_newlines true s')
      else if Ascii.eqb c LF then
        if pendingcr then translate_newlines false s'
        else String LF (translate_newlines false s')
      else String c (translate_newlines false s')
  end.

Definition universal_newlines (s : string) : string :=
  translate_newlines false s.

(** Puts a character in front of the first line of a list of lines. *)
Definition cons_char (c : ascii) (ls : list string) : list string :=
  match ls with
  | [] => [str1 c]
  | l :: ls' => String c l :: ls'
  end.

(** The lines a text file object yields: each ends with its LF, except
    possibly the last.  No line is empty. *)
Fixpoint splitlines (s : string) : list string :=
  match s with
  | EmptyString => []
  | String c s' =>
      if Ascii.eqb c LF then str1 LF :: splitlines s'
      else cons_char c (splitlines s')
  end.

(** An open text file is the list of lines not yet consumed. *)
Abbreviation textfile := (list string) (only parsing).

Definition open_text (content : string) : textfile :=
  splitlines (universal_newlines content).

(** [f.readline()]: the next line, or the empty string at end of file. *)
Definition readline (f : textfile) : string * textfile :=
  match f with
  | [] => (EmptyString, [])
  | l :: f' => (l, f')
  end.

(** ** [csv.reader], default dialect

    The delimiter is the comma, the quote character the double quote,
    with doublequote, no escapechar, no skipinitialspace, not strict,
    QUOTE_MINIMAL.  The escape states of the
    parser are unreachable without an escapechar and are left out. *)

Definition field_limit : N := 131072%N.

Inductive ParserState :=
| START_RECORD
| START_FIELD
| IN_FIELD
| IN_QUOTED_FIELD
| QUOTE_IN_QUOTED_FIELD
| EAT_CRNL.

Global Instance ParserState_eq_dec : EqDecision ParserState.
Proof. solve_decision. Defined.

Abbreviation row := (list string) (only parsing).

Record ReaderObj := mkReader {
  state : ParserState;
  fields : row;          (* fields of the record under construction *)
  field : string         (* characters of the field under construction *)
}.

(** What the parser is fed: a character of the line, or the end-of-line
    marker sent after the last character of every line. *)
Inductive input :=
| Ch (c : ascii)
| EOL.

Definition parse_reset : ReaderObj :=
  {| state := START_RECORD; fields := []; field := EmptyString |}.

Definition set_state (self : ReaderObj) (s : ParserState) : ReaderObj :=
  {| state := s; fields := fields self; field := field self |}.

Definition parse_save_field (self : ReaderObj) : ReaderObj :=
  {| state := state self;
     fields := fields self ++ [field self];
     field := EmptyString |}.

Definition parse_add_char (self : ReaderObj) (c : ascii) : result ReaderObj :=
  if (field_limit <=? N.of_nat (String.length (field self)))%N
  then Raise (csv_Error FieldLimit)
  else Ok {| state := state self;
             fields := fields self;
             field := field self +:+ str1 c |}.

Definition is_newline (c : ascii) : bool := Ascii.eqb c LF || Ascii.eqb c CR.

Definition process_START_FIELD (self : ReaderObj) (c : input) : result ReaderObj :=
  match c with
  | EOL => Ok (set_state (parse_save_field self) START_RECORD)
  | Ch a =>
      if is_newline a then Ok (set_state (parse_save_field self) EAT_CRNL)
      else if Ascii.eqb a DQUOTE then Ok (set_state self IN_QUOTED_FIELD)
      else if Ascii.eqb a COMMA then Ok (parse_save_field self)
      else self' ← parse_add_char self a; Ok (set_state self' IN_FIELD)
  end.

Definition parse_process_char (self : ReaderObj) (c : input) : result ReaderObj :=
  match state self with
  | START_RECORD =>
      match c with
      | EOL => Ok self
      | Ch a =>
          if is_newline a then Ok (set_state self EAT_CRNL)
          else process_START_FIELD (set_state self START_FIELD) c
      end
  | START_FIELD => process_START_FIELD self c
  | IN_FIELD =>
      match c with
      | EOL => Ok (set_state (parse_save_field self) START_RECORD)
      | Ch a =>
          if is_newline a then Ok (set_state (parse_save_field self) EAT_CRNL)
          else if Ascii.eqb a COMMA
               then Ok (set_state (parse_save_field self) START_FIELD)
          else parse_add_char self a
      end
  | IN_QUOTED_FIELD =>
      match c with
      | EOL => Ok self
      | Ch a =>
          if Ascii.eqb a DQUOTE then Ok (set_state self QUOTE_IN_QUOTED_FIELD)
          else parse_add_char self a
      end
  | QUOTE_IN_QUOTED_FIELD =>
      match c with
      | EOL => Ok (set_state (parse_save_field self) START_RECORD)
      | Ch a =>
          if Ascii.eqb a DQUOTE
          then self' ← parse_add_char self a; Ok (set_state self' IN_QUOTED_FIELD)
          else if Ascii.eqb a COMMA
               then Ok (set_state (parse_save_field self) START_FIELD)
          else if is_newline a
               then Ok (set_state (parse_save_field self) EAT_CRNL)
          else self' ← parse_add_char self a; Ok (set_state self' IN_FIELD)
      end
  | EAT_CRNL =>
      match c with
      | EOL => Ok (set_state self START_RECORD)
      | Ch a =>
          if is_newline a then Ok self
          else Raise (csv_Error NewlineInUnquoted)
      end
  end.

(** One line of input: every character, then the end-of-line marker. *)
Fixpoint process_line (self : ReaderObj) (line : string) : result ReaderObj :=
  match line with
  | EmptyString => parse_process_char self EOL
  | String c line' =>
      self' ← parse_process_char self (Ch c); process_line self' line'
  end.

(** The record is unfinished at end of input when a field has been begun
    or a quote is open; it is then returned as it stands. *)
Definition pending (self : ReaderObj) : bool :=
  negb (String.eqb (field self) EmptyString)
  || bool_decide (state self = IN_QUOTED_FIELD).

(** [next(reader)]: lines are pulled until a record is complete.  The
    result is the record, or [None] for StopIteration, with the lines
    left in the underlying file. *)
Fixpoint Reader_iternext_from (self : ReaderObj) (input_iter : textfile)
  : result (option row * textfile) :=
  match input_iter with
  | [] =>
      if pending self then Ok (Some (fields (parse_save_field self)), [])
      else Ok (None, [])
  | lineobj :: rest =>
      self' ← process_line self lineobj;
      if bool_decide (state self' = START_RECORD)
      then Ok (Some (fields self'), rest)
      else Reader_iternext_from self' rest
  end.

Definition Reader_iternext (input_iter : textfile) : result (option row * textfile) :=
  Reader_iternext_from parse_reset input_iter.

(** [for row in reader]: the records up to the end of input, or up to the
    exception that ends the loop. *)
Fixpoint reader_rows_from (self : ReaderObj) (input_iter : textfile)
  : list row * option exn :=
  match input_iter with
  | [] =>
      if pending self then ([fields (parse_save_field self)], None)
      else ([], None)
  | lineobj :: rest =>
      match process_line self lineobj with
      | Raise e => ([], Some e)
      | Ok self' =>
          if bool_decide (state self' = START_RECORD)
          then let '(rs, e) := reader_rows_from parse_reset rest in
               (fields self' :: rs, e)
          else reader_rows_from self' rest
      end
  end.

Definition reader_rows (input_iter : textfile) : list row * option exn :=
  reader_rows_from parse_reset input_iter.

(** ** [csv.writer] with [quoting=csv.QUOTE_ALL] *)

(** The characters of a field, with every quote doubled. *)
Fixpoint double_quotes (s : string) : string :=
  match s with
  | EmptyString => EmptyString
  | String c s' =>
      if Ascii.eqb c DQUOTE then String DQUOTE (String DQUOTE (double_quotes s'))
      else String c (double_quotes s')
  end.

Definition quote_field (s : string) : string :=
  String DQUOTE (double_quotes s +:+ str1 DQUOTE).

Fixpoint join_fields (r : row) : string :=
  match r with
  | [] => EmptyString
  | [f] => quote_field f
  | f :: r' => quote_field f +:+ String COMMA (join_fields r')
  end.

(** [writer.writerow(r)]: the text handed to the file's [write]. *)
Definition writerow (r : row) : string := join_fields r +:+ CRLF.

(** [writer.writerows(rs)]. *)
Fixpoint writerows (rs : list row) : string :=
  match rs with
  | [] => EmptyString
  | r :: rs' => writerow r +:+ writerows rs'
  end.

(** ** The world: file system and console *)

(** What the programs print.  A constructor stands for one [print] call,
    with the values interpolated into its text, or for a run of consecutive
    calls that print fixed text (the help, the usage, an error followed by
    its usage line). *)
Inductive message :=
| MsgCreatedMapping (mapping_csv : string)
| MsgExtracted (rows_written : nat)
| MsgNextStep (mapping_csv : string)
| MsgChangeFrom
| MsgChangeTo
| MsgLoaded (n : nat) (mapping_csv : string)
| MsgCreatedTranslation (output_csv : string)
| MsgPreservedRaw
| MsgPreserved (header_count : nat)
| MsgUpdated (matched_count : nat)
| MsgTotalDataRows (n : nat)
| MsgTotalRows (n : nat)
| MsgSourceNotFound (source : string)
| MsgMappingNotFound (mapping : string)
| MsgHelp
| MsgUsage
| MsgMissingSource
| MsgMissingArguments
| MsgUnknownCommand (command : string).

Record world := mkWorld {
  files : gmap string string;
  console : list message
}.

(** Computations that read and change the world and may raise. *)
Definition io (A : Type) : Type := world -> world * result A.

Global Instance io_ret : MRet io := fun _ a w => (w, Ok a).

Global Instance io_bind : MBind io := fun _ _ f m w =>
  match m w with
  | (w', Ok a) => f a w'
  | (w', Raise e) => (w', Raise e)
  end.

Definition raise {A} (e : exn) : io A := fun w => (w, Raise e).

Definition print (m : message) : io unit := fun w =>
  ({| files := files w; console := console w ++ [m] |}, Ok tt).

(** [Path(p).exists()]. *)
Definition path_exists (p : string) : io bool := fun w =>
  (w, Ok (bool_decide (is_Some (files w !! p)))).

(** [open(p, 'r', encoding='utf-8')]: the handle is the path; nothing is
    read yet. *)
Definition open_r (p : string) : io string := fun w =>
  if bool_decide (is_Some (files w !! p)) then (w, Ok p)
  else (w, Raise (FileNotFoundError p)).

(** The lines of an open file, fetched when it is first read from. *)
Definition read_lines (h : string) : io textfile := fun w =>
  (w, Ok (open_text (default EmptyString (files w !! h)))).

(** [open(p, 'w', encoding='utf-8', newline='')]: creates or truncates. *)
Definition open_w (p : string) : io string := fun w =>
  ({| files := <[p := EmptyString]> (files w); console := console w |}, Ok p).

(** [f.write(s)] on a file opened with [newline='']: no translation. *)
Definition fwrite (h : string) (s : string) : io unit := fun w =>
  ({| files := alter (fun c => c +:+ s) h (files w); console := console w |},
   Ok tt).

(** [writer.writerow(r)] and [writer.writerows(rs)] on [csv.writer(f,
    quoting=csv.QUOTE_ALL)]. *)
Definition writer_writerow (h : string) (r : row) : io unit :=
  fwrite h (writerow r).

Fixpoint writer_writerows (h : string) (rs : list row) : io unit :=
  match rs with
  | [] => mret tt
  | r :: rs' => _ ← writer_writerow h r; writer_writerows h rs'
  end.

(** [row[i]]. *)
Definition getitem (r : row) (i : nat) : io string :=
  match r !! i with
  | Some x => mret x
  | None => raise IndexError
  end.

(** [key in d] and [d[key]] on a [dict]. *)
Definition dict_contains (d : gmap string string) (key : string) : bool :=
  bool_decide (is_Some (d !! key)).

Definition dict_getitem (d : gmap string string) (key : string) : io string :=
  match d !! key with
  | Some v => mret v
  | None => raise (KeyError key)
  end.

(** [for x in xs: s = body(s, x)]. *)
Fixpoint for_each {A S : Type} (xs : list A) (body : S -> A -> io S) (s : S)
  : io S :=
  match xs with
  | [] => mret s
  | x :: xs' => s' ← body s x; for_each xs' body s'
  end.

(** [for row in reader: ...] over the lines left in the file: the body
    runs on every record read before the reader raises, if it does. *)
Definition for_row_in_reader {S : Type} (input_iter : textfile)
    (body : S -> row -> io S) (s : S) : io S :=
  let '(rows, err) := reader_rows input_iter in
  s' ← for_each rows body s;
  match err with
  | Some e => raise e
  | None => mret s'
  end.

(** [next(reader, None)] inside a computation. *)
Definition reader_next (input_iter : textfile) : io (option row * textfile) :=
  fun w => (w, Reader_iternext input_iter).

(** ** The loop bodies shared by both programs *)

(** Body of the loop of [create_mapping_file]. *)
Definition create_body (fout : string) (rows_written : nat) (r : row) : io nat :=
  if bool_decide (3 <= length r) then
    key ← getitem r 0;
    original_text ← getitem r 1;
    _ ← writer_writerow fout [key; original_text];
    mret (rows_written + 1)
  else mret rows_written.

(** Body of the loop that loads the mapping file. *)
Definition load_body (translations : gmap string string) (r : row)
  : io (gmap string string) :=
  if bool_decide (2 <= length r) then
    key ← getitem r 0;
    new_text ← getitem r 1;
    mret (<[key := new_text]> translations)
  else mret translations.

(** Body of the loop over the data rows of the source.  The state is
    [matched_count] and the list the rows are appended to. *)
Definition build_body (translations : gmap string string)
    (s : nat * list row) (r : row) : io (nat * list row) :=
  let '(matched_count, data_rows) := s in
  if bool_decide (3 <= length r) then
    key ← getitem r 0;
    original_text ← getitem r 1;
    '(new_text, matched_count') ←
      (if dict_contains translations key
       then new_text ← dict_getitem translations key;
            mret (new_text, matched_count + 1)
       else new_text ← getitem r 2;
            mret (new_text, matched_count));
    mret (matched_count', data_rows ++ [[key; original_text; new_text]])
  else mret (matched_count, data_rows).

(** [create_mapping_file], the same text in both files. *)
Definition skip_header_step (fin : textfile) : io textfile :=
  '(_, fin') ← reader_next fin; mret fin'.

Definition create_mapping_file (source_csv mapping_csv : string) : io unit :=
  fin ← open_r source_csv;
  fout ← open_w mapping_csv;
  lines ← read_lines fin;
  lines ← skip_header_step lines;
  lines ← skip_header_step lines;
  lines ← skip_header_step lines;
  rows_written ← for_row_in_reader lines (create_body fout) 0;
  _ ← print (MsgCreatedMapping mapping_csv);
  _ ← print (MsgExtracted rows_written);
  _ ← print (MsgNextStep mapping_csv);
  _ ← print MsgChangeFrom;
  print MsgChangeTo.

(** Loading of the mapping file, the same text in both files. *)
Definition load_translations (mapping_csv : string) : io (gmap string string) :=
  f ← open_r mapping_csv;
  lines ← read_lines f;
  for_row_in_reader lines load_body ∅.

(** ** [src/transcmd.py] *)

Module transcmd.

(** One round of the loop that reads the header with [readline]. *)
Definition header_step (s : list string * textfile) : list string * textfile :=
  let '(header_lines, fin) := s in
  let '(line, fin') := readline fin in
  if bool_decide (line <> EmptyString) then (header_lines ++ [line], fin')
  else (header_lines, fin').

Definition read_header (fin : textfile) : list string * textfile :=
  header_step (header_step (header_step ([], fin))).

(** The [with] block that reads the source: the three raw header lines,
    then the data rows resolved against [translations]. *)
Definition read_source (source_csv : string) (translations : gmap string string)
  : io (list string * nat * list row) :=
  fin ← open_r source_csv;
  lines ← read_lines fin;
  let '(header_lines, lines) := read_header lines in
  '(matched_count, data_rows) ←
    for_row_in_reader lines (build_body translations) (0, []);
  mret (header_lines, matched_count, data_rows).

(** The [with] block that writes the output. *)
Definition write_output (output_csv : string) (header_lines : list string)
    (data_rows : list row) : io unit :=
  fout ← open_w output_csv;
  _ ← for_each header_lines (fun _ line => fwrite fout line) tt;
  writer_writerows fout data_rows.

Definition build_translation_file (source_csv mapping_csv output_csv : string)
  : io unit :=
  translations ← load_translations mapping_csv;
  _ ← print (MsgLoaded (size translations) mapping_csv);
  '(header_lines, matched_count, data_rows) ←
    read_source source_csv translations;
  _ ← write_output output_csv header_lines data_rows;
  _ ← print (MsgCreatedTranslation output_csv);
  _ ← print MsgPreservedRaw;
  _ ← print (MsgUpdated matched_count);
  print (MsgTotalDataRows (length data_rows)).

(** What [argparse] hands to [main]: no subcommand, or one of the two
    with its arguments (defaults filled in). *)
Inductive args :=
| NoCommand
| Create (source output : string)
| Build (source mapping output : string).

Definition main (a : args) : io unit :=
  match a with
  | NoCommand => print MsgHelp
  | Create source output =>
      found ← path_exists source;
      if negb found then print (MsgSourceNotFound source)
      else create_mapping_file source output
  | Build source mapping output =>
      source_found ← path_exists source;
      if negb source_found then print (MsgSourceNotFound source)
      else
        mapping_found ← path_exists mapping;
        if negb mapping_found then print (MsgMappingNotFound mapping)
        else build_translation_file source mapping output
  end.

End transcmd.

(** ** [src/translations.py] *)

Module translations.

(** One round of the loop that reads the header with [next(reader, None)];
    the state is [rows], [header_count] and the file. *)
Definition header_step (s : list row * nat * textfile)
  : io (list row * nat * textfile) :=
  let '(rows, header_count, f) := s in
  '(header_row, f') ← reader_next f;
  match header_row with
  | Some (x :: r) => mret (rows ++ [x :: r], header_count + 1, f')
  | _ => mret (rows, header_count, f')
  end.

(** The [with] block that reads the source: up to three header records
    kept as parsed, then the data rows, all in [rows]. *)
Definition read_source (source_csv : string) (translations : gmap string string)
  : io (list row * nat * nat) :=
  f ← open_r source_csv;
  lines ← read_lines f;
  s ← header_step ([], 0, lines);
  s ← header_step s;
  '(rows, header_count, lines) ← header_step s;
  '(matched_count, rows) ←
    for_row_in_reader lines (build_body translations) (0, rows);
  mret (rows, header_count, matched_count).

(** The [with] block that writes the output. *)
Definition write_output (output_csv : string) (rows : list row) : io unit :=
  f ← open_w output_csv;
  writer_writerows f rows.

Definition build_translation_file (source_csv mapping_csv output_csv : string)
  : io unit :=
  translations ← load_translations mapping_csv;
  _ ← print (MsgLoaded (size translations) mapping_csv);
  '(rows, header_count, matched_count) ← read_source source_csv translations;
  _ ← write_output output_csv rows;
  _ ← print (MsgCreatedTranslation output_csv);
  _ ← print (MsgPreserved header_count);
  _ ← print (MsgUpdated matched_count);
  print (MsgTotalRows (length rows)).

(** [str.lower] on the letters A to Z; the result is only compared with
    the two command names, which no other character lowers into. *)
Definition lower_char (c : ascii) : ascii :=
  let n := nat_of_ascii c in
  if (65 <=? n) && (n <=? 90) then ascii_of_nat (n + 32) else c.

Fixpoint lower (s : string) : string :=
  match s with
  | EmptyString => EmptyString
  | String c s' => String (lower_char c) (lower s')
  end.

(** [main], on [sys.argv]. *)
Definition main (argv : list string) : io unit :=
  if bool_decide (length argv < 2) then print MsgUsage
  else
    arg ← getitem argv 1;
    let command := lower arg in
    if String.eqb command "create" then
      if bool_decide (length argv < 3) then print MsgMissingSource
      else
        source_csv ← getitem argv 2;
        mapping_csv ← (if bool_decide (3 < length argv) then getitem argv 3
                       else (mret "translations_to_edit.csv" : io string));
        found ← path_exists source_csv;
        if negb found then print (MsgSourceNotFound source_csv)
        else create_mapping_file source_csv mapping_csv
    else if String.eqb command "build" then
      if bool_decide (length argv < 4) then print MsgMissingArguments
      else
        source_csv ← getitem argv 2;
        mapping_csv ← getitem argv 3;
        output_csv ← (if bool_decide (4 < length argv) then getitem argv 4
                      else (mret "#GF_custom.csv" : io string));
        source_found ← path_exists source_csv;
        if negb source_found then print (MsgSourceNotFound source_csv)
        else
          mapping_found ← path_exists mapping_csv;
          if negb mapping_found then print (MsgMappingNotFound mapping_csv)
          else build_translation_file source_csv mapping_csv output_csv
    else print (MsgUnknownCommand command).

End translations.

(** * Definitions used to state the properties

    Closed forms of the loops and blocks above, predicates on text and on
    reader states, and the worlds the examples run in.  Each closed form is
    proved equal to the code it describes before it is used. *)

(** The world with one file replaced. *)
Definition set_file (p c : string) (w : world) : world :=
  {| files := <[p := c]> (files w); console := console w |}.

(** What the extractor writes for a record. *)
Definition pair_of (r : row) : option row :=
  match r with
  | key :: original :: _ :: _ => Some [key; original]
  | _ => None
  end.

(** The rows the extractor's loop writes. *)
Definition extracted (rows : list row) : list row := omap pair_of rows.

(** What a record of the mapping file does to the index. *)
Definition index_step (d : gmap string string) (r : row) : gmap string string :=
  match r with
  | key :: text :: _ => <[key := text]> d
  | _ => d
  end.

(** The dictionary the loading loop ends with, started from [d]. *)
Definition index_from (d : gmap string string) (rows : list row)
  : gmap string string :=
  foldl index_step d rows.

(** The row the merger appends for a record of the source. *)
Definition resolve (tr : gmap string string) (r : row) : option row :=
  match r with
  | key :: original :: fallback :: _ =>
      Some [key; original; default fallback (tr !! key)]
  | _ => None
  end.

(** The rows the merger's loop appends. *)
Definition resolved (tr : gmap string string) (rows : list row) : list row :=
  omap (resolve tr) rows.

(** The record counts in [matched_count]. *)
Definition is_match (tr : gmap string string) (r : row) : bool :=
  match r with
  | key :: _ :: _ :: _ => dict_contains tr key
  | _ => false
  end.

(** What the merger's loop adds to [matched_count]. *)
Definition matched (tr : gmap string string) (rows : list row) : nat :=
  length (filter (fun r => is_match tr r = true) rows).

(** The text a sequence of [write] calls leaves in a file. *)
Definition join_lines (ls : list string) : string :=
  foldr String.append EmptyString ls.

(** The world with messages added to the console. *)
Definition say (ms : list message) (w : world) : world :=
  {| files := files w; console := console w ++ ms |}.

(** How a run of the merger of [transcmd.py] can end: with the output
    written from what the two inputs held when the run began, or with an
    exception and every file as it was. *)
Inductive transcmd_outcome (s m o : string) (w : world)
  : world * result unit -> Prop :=
| TOk mc mrows sc hdr rest rows w' :
    files w !! m = Some mc ->
    reader_rows (open_text mc) = (mrows, None) ->
    files w !! s = Some sc ->
    transcmd.read_header (open_text sc) = (hdr, rest) ->
    reader_rows rest = (rows, None) ->
    files w' =
      <[o := join_lines hdr +:+ writerows (resolved (index_from ∅ mrows) rows)]>
        (files w) ->
    transcmd_outcome s m o w (w', Ok tt)
| TRaise e w' :
    files w' = files w ->
    transcmd_outcome s m o w (w', Raise e).

(** The header loop of [translations.py] without the world. *)
Definition keep_header (s : list row * nat * textfile)
  : result (list row * nat * textfile) :=
  let '(rows, header_count, f) := s in
  match Reader_iternext f with
  | Raise e => Raise e
  | Ok (Some (x :: r), f') => Ok (rows ++ [x :: r], header_count + 1, f')
  | Ok (_, f') => Ok (rows, header_count, f')
  end.

(** Its three rounds: the header records kept, their count, and the lines
    left for the data rows. *)
Definition three_headers (lines : textfile) : result (list row * nat * textfile) :=
  s1 ← keep_header ([], 0, lines);
  s2 ← keep_header s1;
  keep_header s2.

(** How a run of the merger of [translations.py] can end. *)
Inductive translations_outcome (s m o : string) (w : world)
  : world * result unit -> Prop :=
| ROk mc mrows sc hrows hc rest rows w' :
    files w !! m = Some mc ->
    reader_rows (open_text mc) = (mrows, None) ->
    files w !! s = Some sc ->
    three_headers (open_text sc) = Ok (hrows, hc, rest) ->
    reader_rows rest = (rows, None) ->
    files w' =
      <[o := writerows (hrows ++ resolved (index_from ∅ mrows) rows)]> (files w) ->
    translations_outcome s m o w (w', Ok tt)
| RRaise e w' :
    files w' = files w ->
    translations_outcome s m o w (w', Raise e).

(** The records of the source that have at least three fields. *)
Definition retained (rows : list row) : list row :=
  filter (fun r => 3 <= length r) rows.

(** The record sets the entry of [K] when loaded. *)
Definition sets_key (K : string) (r : row) : bool :=
  match r with
  | k :: _ :: _ => bool_decide (k = K)
  | _ => false
  end.

(** A small source with LF line ends: three header lines, then a row of
    three fields, one of two and one of four. *)
Definition demo_source : string :=
  "Language" +:+ str1 LF +:+ str1 LF +:+ "NormalText" +:+ str1 LF
  +:+ "k1,hello,salut" +:+ str1 LF
  +:+ "k2,short" +:+ str1 LF
  +:+ "k3,bye,adieu,extra" +:+ str1 LF.

(** A mapping file: one pair, and one record too short to count. *)
Definition demo_mapping : string :=
  "k3,farewell" +:+ str1 LF +:+ "lonely" +:+ str1 LF.

Definition demo_world : world :=
  mkWorld {[ "src.csv" := demo_source; "map.csv" := demo_mapping ]} [].

(** The line, read on its own, is one complete record. *)
Definition line_is_record (l : string) : bool :=
  match process_line parse_reset l with
  | Ok self => bool_decide (state self = START_RECORD)
  | Raise _ => false
  end.

Definition demo_world_lf : world :=
  mkWorld {[ "src.csv" := demo_source ]} [].

(** A source whose first record runs over two lines: the quoted field
    opened on the first line is closed on the second. *)
Definition two_line_header_source : string :=
  str1 DQUOTE +:+ "Title" +:+ str1 LF
  +:+ "continued" +:+ str1 DQUOTE +:+ ",x,y" +:+ str1 LF
  +:+ "h2" +:+ str1 LF
  +:+ "k0,a,b" +:+ str1 LF
  +:+ "k1,c,d" +:+ str1 LF.

(** A source with Windows line ends. *)
Definition crlf_source : string :=
  "Language" +:+ CRLF +:+ CRLF +:+ "NormalText" +:+ CRLF
  +:+ "k1,hello,salut" +:+ CRLF.

Definition crlf_world : world :=
  mkWorld {[ "src.csv" := crlf_source; "map.csv" := EmptyString ]} [].

(** The reader on the lines of a text. *)
Definition read_text (self : ReaderObj) (s : string) : list row * option exn :=
  reader_rows_from self (splitlines s).

(** A field the reader accepts: no longer than the limit. *)
Definition fits (f : string) : Prop :=
  (N.of_nat (String.length f) <= field_limit)%N.

(** What the written rows read as once CR LF has become LF. *)
Fixpoint written_lf (rs : list row) : string :=
  match rs with
  | [] => EmptyString
  | r :: rs' => join_fields r +:+ String LF (written_lf rs')
  end.

(** The text has no carriage return. *)
Fixpoint no_cr (s : string) : bool :=
  match s with
  | EmptyString => true
  | String c s' => negb (Ascii.eqb c CR) && no_cr s'
  end.

(** A field as the reader delivers it from a file read with universal
    newlines, and as it reads back from what the writer wrote. *)
Definition good_field (f : string) : Prop := fits f /\ no_cr f = true.

(** The reader holds such fields only. *)
Definition good_reader (self : ReaderObj) : Prop :=
  good_field (field self) /\ Forall good_field (fields self).

Definition input_no_cr (c : input) : Prop :=
  match c with
  | Ch a => a <> CR
  | EOL => True
  end.

(** [next(reader, None)] with the record thrown away. *)
Definition skip_record (lines : textfile) : result textfile :=
  match Reader_iternext lines with
  | Ok (_, rest) => Ok rest
  | Raise e => Raise e
  end.

(** The three [next(reader, None)] that skip the header. *)
Definition skip_headers (lines : textfile) : result textfile :=
  l1 ← skip_record lines; l2 ← skip_record l1; skip_record l2.

(** What the extractor prints at the end. *)
Definition create_messages (mapping_csv : string) (n : nat) : list message :=
  [MsgCreatedMapping mapping_csv; MsgExtracted n; MsgNextStep mapping_csv;
   MsgChangeFrom; MsgChangeTo].

(** First and second field of a record that has them. *)
Definition key_of (r : row) : string := default EmptyString (r !! 0).
Definition original_of (r : row) : string := default EmptyString (r !! 1).

(** The world the extractor leaves when run on [demo_world_lf]. *)
Definition round_trip_world : world :=
  fst (create_mapping_file "src.csv" "map.csv" demo_world_lf).

(** A source in which two rows share a key; each has its original text
    in the third column as well. *)
Definition duplicate_key_source : string :=
  "Language" +:+ str1 LF +:+ str1 LF +:+ "NormalText" +:+ str1 LF
  +:+ "k,a,a" +:+ str1 LF
  +:+ "k,b,b" +:+ str1 LF.

Definition duplicate_key_world : world :=
  mkWorld {[ "src.csv" := duplicate_key_source ]} [].

(** A line with its line feed: no line feed before the last character. *)
Fixpoint complete_line (l : string) : bool :=
  match l with
  | EmptyString => false
  | String c l' =>
      if Ascii.eqb c LF then String.eqb l' EmptyString else complete_line l'
  end.

(** A character that is neither a line break, nor the delimiter, nor the
    quote. *)
Definition ordinary (c : ascii) : bool :=
  negb (is_newline c) && negb (Ascii.eqb c COMMA) && negb (Ascii.eqb c DQUOTE).

Fixpoint all_ordinary (s : string) : bool :=
  match s with
  | EmptyString => true
  | String c s' => ordinary c && all_ordinary s'
  end.

(** A row the writer's text reads back as: it has a field, and its fields
    are as the reader delivers them. *)
Definition good_row (r : row) : Prop := r <> [] /\ Forall good_field r.

(** A source whose third line opens a quote that the fifth line closes. *)
Definition open_quote_source : string :=
  "h1" +:+ str1 LF +:+ "h2" +:+ str1 LF
  +:+ str1 DQUOTE +:+ "h" +:+ str1 LF
  +:+ "k,o,o" +:+ str1 LF
  +:+ str1 DQUOTE +:+ ",x" +:+ str1 LF
  +:+ "k,z,z" +:+ str1 LF.


(** A string of [n] times the character [c]. *)
Fixpoint replicate_char (n : nat) (c : ascii) : string :=
  match n with
  | 0 => EmptyString
  | S n' => String c (replicate_char n' c)
  end.

(** An unquoted field one character longer than the reader accepts. *)
Definition long_field : string := replicate_char (N.to_nat 131073) "a".



(** A source whose fifth line is too long for the reader. *)
Definition long_line_source : string :=
  "h1" +:+ str1 LF +:+ "h2" +:+ str1 LF +:+ "h3" +:+ str1 LF
  +:+ "k1,a,b" +:+ str1 LF +:+ long_field.

(** A world whose source has one good record before the line that is too
    long. *)
Definition long_line_world : world :=
  mkWorld {[ "src.csv" := long_line_source ]} [].

(** * Properties *)

(** ** Strings *)

Lemma append_nil_l (s : string) : EmptyString +:+ s = s.
Proof. reflexivity. Qed.

Lemma append_cons (c : ascii) (s t : string) :
  String c s +:+ t = String c (s +:+ t).
Proof. reflexivity. Qed.

Lemma append_nil_r (s : string) : s +:+ EmptyString = s.
Proof. induction s as [|c s IH]; [done|]. by rewrite append_cons, IH. Qed.

Lemma append_assoc (a b c : string) : (a +:+ b) +:+ c = a +:+ (b +:+ c).
Proof.
  induction a as [|x a IH]; [done|]. by rewrite !append_cons, IH.
Qed.

Lemma length_append (a b : string) :
  String.length (a +:+ b) = String.length a + String.length b.
Proof.
  induction a as [|x a IH]; [done|]. rewrite append_cons. simpl. by rewrite IH.
Qed.

(** ** Running computations *)

Lemma bind_ok {A B} (m : io A) (f : A -> io B) w w' a :
  m w = (w', Ok a) -> (m ≫= f) w = f a w'.
Proof. intros H. unfold mbind, io_bind. by rewrite H. Qed.

Lemma bind_raise {A B} (m : io A) (f : A -> io B) w w' e :
  m w = (w', Raise e) -> (m ≫= f) w = (w', Raise e).
Proof. intros H. unfold mbind, io_bind. by rewrite H. Qed.

Lemma ret_bind {A B} (a : A) (f : A -> io B) w : (mret a ≫= f) w = f a w.
Proof. reflexivity. Qed.

Ltac io_simpl := cbn; rewrite ?ret_bind; cbn.

Lemma fwrite_set h s c w :
  files w !! h = Some c -> fwrite h s w = (set_file h (c +:+ s) w, Ok tt).
Proof.
  intros H. unfold fwrite, set_file. do 2 f_equal.
  apply map_eq. intros k. destruct (decide (h = k)) as [->|Hne].
  - by rewrite lookup_alter_eq, lookup_insert_eq, H.
  - by rewrite lookup_alter_ne, lookup_insert_ne.
Qed.

Lemma set_file_set_file p c c' w : set_file p c' (set_file p c w) = set_file p c' w.
Proof. unfold set_file. simpl. by rewrite insert_insert_eq. Qed.

Lemma set_file_lookup p c w : files (set_file p c w) !! p = Some c.
Proof. apply lookup_insert_eq. Qed.

Lemma writer_writerows_set h rs c w :
  files w !! h = Some c ->
  writer_writerows h rs w = (set_file h (c +:+ writerows rs) w, Ok tt).
Proof.
  revert c w. induction rs as [|r rs IH]; intros c w Hc; simpl.
  - rewrite append_nil_r. unfold mret, io_ret, set_file. do 2 f_equal.
    destruct w as [fs co]. simpl in *. f_equal. by rewrite insert_id.
  - erewrite bind_ok; [|by apply fwrite_set].
    rewrite (IH (c +:+ writerow r)); [|apply set_file_lookup].
    by rewrite set_file_set_file, append_assoc.
Qed.

(** ** The three loops in closed form *)

Ltac short_row r :=
  destruct r as [|? [|? [|? ?]]];
  repeat case_bool_decide; simpl in *; try lia.

Lemma create_body_run fout n r c w :
  files w !! fout = Some c ->
  create_body fout n r w =
    (set_file fout (c +:+ writerows (extracted [r])) w,
     Ok (n + length (extracted [r]))).
Proof.
  intros Hc. unfold create_body. short_row r; io_simpl.
  1-3: rewrite append_nil_r, Nat.add_0_r; unfold mret, io_ret, set_file;
       destruct w; simpl in *; by rewrite insert_id.
  unfold writer_writerow. erewrite bind_ok; [|by apply fwrite_set].
  by rewrite append_nil_r.
Qed.

Lemma extracted_cons r rows : extracted (r :: rows) = extracted [r] ++ extracted rows.
Proof. unfold extracted. simpl. by destruct (pair_of r). Qed.

Lemma writerows_app a b : writerows (a ++ b) = writerows a +:+ writerows b.
Proof.
  induction a as [|r a IH]; simpl; [done|]. by rewrite IH, append_assoc.
Qed.

Lemma for_each_create_body fout rows n c w :
  files w !! fout = Some c ->
  for_each rows (create_body fout) n w =
    (set_file fout (c +:+ writerows (extracted rows)) w,
     Ok (n + length (extracted rows))).
Proof.
  revert n c w. induction rows as [|r rows IH]; intros n c w Hc.
  - simpl. rewrite append_nil_r, Nat.add_0_r. unfold mret, io_ret, set_file.
    destruct w; simpl in *. by rewrite insert_id.
  - simpl for_each. erewrite bind_ok; [|by apply create_body_run].
    erewrite IH; [|apply set_file_lookup].
    rewrite set_file_set_file, (extracted_cons r rows), writerows_app.
    rewrite length_app, append_assoc. do 2 f_equal. lia.
Qed.

Lemma load_body_run d r w : load_body d r w = (w, Ok (index_step d r)).
Proof.
  unfold load_body. destruct r as [|k [|t rest]];
    case_bool_decide; simpl in *; try lia; done.
Qed.

Lemma for_each_load_body rows d w :
  for_each rows load_body d w = (w, Ok (index_from d rows)).
Proof.
  revert d. induction rows as [|r rows IH]; intros d; [done|].
  simpl for_each. erewrite bind_ok; [|apply load_body_run]. apply IH.
Qed.

Lemma build_body_run tr m d r w :
  build_body tr (m, d) r w =
    (w, Ok (m + (if is_match tr r then 1 else 0),
            d ++ from_option (fun x => [x]) [] (resolve tr r))).
Proof.
  unfold build_body. short_row r; io_simpl;
    rewrite ?app_nil_r, ?Nat.add_0_r; try done.
  unfold dict_contains, dict_getitem.
  destruct (tr !! s) as [t|] eqn:Ht; simpl; [done|].
  by rewrite Nat.add_0_r.
Qed.

Lemma for_each_build_body tr rows m d w :
  for_each rows (build_body tr) (m, d) w =
    (w, Ok (m + matched tr rows, d ++ resolved tr rows)).
Proof.
  revert m d. induction rows as [|r rows IH]; intros m d.
  - simpl. by rewrite Nat.add_0_r, app_nil_r.
  - simpl for_each. erewrite bind_ok; [|apply build_body_run].
    rewrite IH. unfold matched, resolved. simpl omap.
    rewrite filter_cons. do 3 f_equal.
    + destruct (is_match tr r); case_decide; simpl; try done; lia.
    + destruct (resolve tr r); simpl; by rewrite <- ?app_assoc.
Qed.

(** [for row in reader] with each of the three bodies. *)
Lemma for_row_in_reader_run {S} lines (body : S -> row -> io S) s w rows err w' s' :
  reader_rows lines = (rows, err) ->
  for_each rows body s w = (w', Ok s') ->
  for_row_in_reader lines body s w =
    (w', match err with Some e => Raise e | None => Ok s' end).
Proof.
  intros Hr Hb. unfold for_row_in_reader. rewrite Hr.
  erewrite bind_ok by exact Hb. by destruct err.
Qed.

(** ** The reader: [next] against the [for] loop *)

Lemma reader_rows_from_next self lines :
  reader_rows_from self lines =
    match Reader_iternext_from self lines with
    | Raise e => ([], Some e)
    | Ok (None, _) => ([], None)
    | Ok (Some r, rest) => let '(rs, e) := reader_rows rest in (r :: rs, e)
    end.
Proof.
  revert self. induction lines as [|l lines IH]; intros self; simpl.
  - by destruct (pending self).
  - destruct (process_line self l) as [self'|e]; simpl; [|done].
    case_bool_decide; [done | apply IH].
Qed.

Lemma reader_rows_next lines :
  reader_rows lines =
    match Reader_iternext lines with
    | Raise e => ([], Some e)
    | Ok (None, _) => ([], None)
    | Ok (Some r, rest) => let '(rs, e) := reader_rows rest in (r :: rs, e)
    end.
Proof. apply reader_rows_from_next. Qed.

(** ** The blocks of the two programs in closed form *)

Lemma open_r_found p c w : files w !! p = Some c -> open_r p w = (w, Ok p).
Proof. intros H. unfold open_r. by rewrite bool_decide_eq_true_2 by eauto. Qed.

Lemma open_r_missing p w :
  files w !! p = None -> open_r p w = (w, Raise (FileNotFoundError p)).
Proof.
  intros H. unfold open_r. rewrite bool_decide_eq_false_2; [done|].
  rewrite H. by intros [? ?].
Qed.

Lemma read_lines_run h c w :
  files w !! h = Some c -> read_lines h w = (w, Ok (open_text c)).
Proof. intros H. unfold read_lines. by rewrite H. Qed.

Lemma load_translations_run m w mc rows err :
  files w !! m = Some mc ->
  reader_rows (open_text mc) = (rows, err) ->
  load_translations m w =
    (w, match err with
        | Some e => Raise e
        | None => Ok (index_from ∅ rows)
        end).
Proof.
  intros Hm Hr. unfold load_translations.
  erewrite bind_ok by (by eapply open_r_found).
  erewrite bind_ok by (by eapply read_lines_run).
  eapply for_row_in_reader_run; [exact Hr | apply for_each_load_body].
Qed.

Lemma load_translations_missing m w :
  files w !! m = None ->
  load_translations m w = (w, Raise (FileNotFoundError m)).
Proof.
  intros Hm. unfold load_translations.
  by erewrite bind_raise by (by apply open_r_missing).
Qed.

Lemma for_each_fwrite h ls c w :
  files w !! h = Some c ->
  for_each ls (fun _ line => fwrite h line) tt w =
    (set_file h (c +:+ join_lines ls) w, Ok tt).
Proof.
  revert c w. induction ls as [|l ls IH]; intros c w Hc; simpl.
  - rewrite append_nil_r. unfold mret, io_ret, set_file.
    destruct w; simpl in *. by rewrite insert_id.
  - erewrite bind_ok; [|by apply fwrite_set].
    erewrite IH; [|apply set_file_lookup].
    by rewrite set_file_set_file, append_assoc.
Qed.

Lemma transcmd_read_source_run s tr w sc hdr rest rows err :
  files w !! s = Some sc ->
  transcmd.read_header (open_text sc) = (hdr, rest) ->
  reader_rows rest = (rows, err) ->
  transcmd.read_source s tr w =
    (w, match err with
        | Some e => Raise e
        | None => Ok (hdr, matched tr rows, resolved tr rows)
        end).
Proof.
  intros Hs Hh Hr. unfold transcmd.read_source.
  erewrite bind_ok by (by eapply open_r_found).
  erewrite bind_ok by (by eapply read_lines_run). rewrite Hh.
  pose proof (for_row_in_reader_run rest (build_body tr) (0, []) w rows err
                w _ Hr (for_each_build_body tr rows 0 [] w)) as Hl.
  destruct err as [e|].
  - by erewrite bind_raise by exact Hl.
  - by erewrite bind_ok by exact Hl.
Qed.

Lemma transcmd_read_source_missing s tr w :
  files w !! s = None ->
  transcmd.read_source s tr w = (w, Raise (FileNotFoundError s)).
Proof.
  intros Hs. unfold transcmd.read_source.
  by erewrite bind_raise by (by apply open_r_missing).
Qed.

Lemma transcmd_write_output_run o hdr ds w :
  transcmd.write_output o hdr ds w =
    (set_file o (join_lines hdr +:+ writerows ds) w, Ok tt).
Proof.
  unfold transcmd.write_output. unfold open_w at 1.
  unfold mbind at 1, io_bind at 1.
  erewrite bind_ok; [|by apply for_each_fwrite, lookup_insert_eq].
  erewrite writer_writerows_set; [|apply set_file_lookup].
  rewrite set_file_set_file, append_nil_l. unfold set_file. simpl.
  by rewrite insert_insert_eq.
Qed.

Lemma load_translations_ok m w mc rows :
  files w !! m = Some mc ->
  reader_rows (open_text mc) = (rows, None) ->
  load_translations m w = (w, Ok (index_from ∅ rows)).
Proof. apply load_translations_run. Qed.

Lemma load_translations_raise m w mc rows e :
  files w !! m = Some mc ->
  reader_rows (open_text mc) = (rows, Some e) ->
  load_translations m w = (w, Raise e).
Proof. apply load_translations_run. Qed.

Lemma transcmd_read_source_ok s tr w sc hdr rest rows :
  files w !! s = Some sc ->
  transcmd.read_header (open_text sc) = (hdr, rest) ->
  reader_rows rest = (rows, None) ->
  transcmd.read_source s tr w = (w, Ok (hdr, matched tr rows, resolved tr rows)).
Proof. apply transcmd_read_source_run. Qed.

Lemma transcmd_read_source_raise s tr w sc hdr rest rows e :
  files w !! s = Some sc ->
  transcmd.read_header (open_text sc) = (hdr, rest) ->
  reader_rows rest = (rows, Some e) ->
  transcmd.read_source s tr w = (w, Raise e).
Proof. apply transcmd_read_source_run. Qed.

Lemma print_run m w : print m w = (say [m] w, Ok tt).
Proof. reflexivity. Qed.

Lemma say_say a b w : say b (say a w) = say (a ++ b) w.
Proof. unfold say. simpl. by rewrite app_assoc. Qed.

Lemma say_set_file ms p c w : say ms (set_file p c w) = set_file p c (say ms w).
Proof. reflexivity. Qed.

(** A successful run of the merger of [transcmd.py]. *)
Lemma transcmd_build_run s m o w mc mrows sc hdr rest rows :
  files w !! m = Some mc ->
  reader_rows (open_text mc) = (mrows, None) ->
  files w !! s = Some sc ->
  transcmd.read_header (open_text sc) = (hdr, rest) ->
  reader_rows rest = (rows, None) ->
  let tr := index_from ∅ mrows in
  transcmd.build_translation_file s m o w =
    (set_file o (join_lines hdr +:+ writerows (resolved tr rows))
       (say [MsgLoaded (size tr) m; MsgCreatedTranslation o; MsgPreservedRaw;
             MsgUpdated (matched tr rows);
             MsgTotalDataRows (length (resolved tr rows))] w),
     Ok tt).
Proof.
  intros Hm Hmr Hs Hh Hr tr. unfold transcmd.build_translation_file.
  erewrite bind_ok by (by eapply load_translations_ok).
  fold tr. erewrite bind_ok by apply print_run.
  erewrite bind_ok by (by eapply (transcmd_read_source_ok s tr)).
  cbv beta iota.
  erewrite bind_ok by apply transcmd_write_output_run.
  repeat (erewrite bind_ok by apply print_run).
  rewrite print_run. by rewrite !say_set_file, !say_say.
Qed.

Lemma transcmd_build_outcome s m o w :
  transcmd_outcome s m o w (transcmd.build_translation_file s m o w).
Proof.
  destruct (files w !! m) as [mc|] eqn:Hm.
  2: { unfold transcmd.build_translation_file.
       erewrite bind_raise by (by apply load_translations_missing).
       by constructor. }
  destruct (reader_rows (open_text mc)) as [mrows [e|]] eqn:Hmr.
  { unfold transcmd.build_translation_file.
    erewrite bind_raise by (by eapply load_translations_raise).
    by constructor. }
  destruct (files w !! s) as [sc|] eqn:Hs.
  2: { unfold transcmd.build_translation_file.
       erewrite bind_ok by (by eapply load_translations_ok).
       erewrite bind_ok by apply print_run.
       erewrite bind_raise by (by apply transcmd_read_source_missing).
       by constructor. }
  destruct (transcmd.read_header (open_text sc)) as [hdr rest] eqn:Hh.
  destruct (reader_rows rest) as [rows [e|]] eqn:Hr.
  { unfold transcmd.build_translation_file.
    erewrite bind_ok by (by eapply load_translations_ok).
    erewrite bind_ok by apply print_run.
    erewrite bind_raise by (by eapply (transcmd_read_source_raise s _ (say _ w))).
    by constructor. }
  erewrite transcmd_build_run by done. by econstructor.
Qed.

Lemma translations_header_step_run s w :
  translations.header_step s w = (w, keep_header s).
Proof.
  destruct s as [[rows hc] f]. unfold translations.header_step, keep_header.
  unfold reader_next, mbind at 1, io_bind at 1.
  destruct (Reader_iternext f) as [[[[|x r]|] f']|e]; done.
Qed.

Lemma translations_read_source_run s tr w sc :
  files w !! s = Some sc ->
  translations.read_source s tr w =
    (w, match three_headers (open_text sc) with
        | Raise e => Raise e
        | Ok (hrows, hc, rest) =>
            match reader_rows rest with
            | (rows, None) => Ok (hrows ++ resolved tr rows, hc, matched tr rows)
            | (_, Some e) => Raise e
            end
        end).
Proof.
  intros Hs. unfold translations.read_source, three_headers.
  erewrite bind_ok by (by eapply open_r_found).
  erewrite bind_ok by (by eapply read_lines_run).
  destruct (keep_header ([], 0, open_text sc)) as [s1|e] eqn:H1.
  2: { by erewrite bind_raise by (rewrite translations_header_step_run, H1; done). }
  erewrite bind_ok by (rewrite translations_header_step_run, H1; done).
  simpl. destruct (keep_header s1) as [s2|e] eqn:H2.
  2: { by erewrite bind_raise by (rewrite translations_header_step_run, H2; done). }
  erewrite bind_ok by (rewrite translations_header_step_run, H2; done).
  simpl. destruct (keep_header s2) as [[[hrows hc] rest]|e] eqn:H3.
  2: { by erewrite bind_raise by (rewrite translations_header_step_run, H3; done). }
  erewrite bind_ok by (rewrite translations_header_step_run, H3; done).
  cbv beta iota.
  destruct (reader_rows rest) as [rows err] eqn:Hr.
  pose proof (for_row_in_reader_run rest (build_body tr) (0, hrows) w rows err
                w _ Hr (for_each_build_body tr rows 0 hrows w)) as Hl.
  destruct err as [e|].
  - by erewrite bind_raise by exact Hl.
  - by erewrite bind_ok by exact Hl.
Qed.

Lemma translations_read_source_missing s tr w :
  files w !! s = None ->
  translations.read_source s tr w = (w, Raise (FileNotFoundError s)).
Proof.
  intros Hs. unfold translations.read_source.
  by erewrite bind_raise by (by apply open_r_missing).
Qed.

Lemma translations_write_output_run o rows w :
  translations.write_output o rows w = (set_file o (writerows rows) w, Ok tt).
Proof.
  unfold translations.write_output. unfold open_w at 1.
  unfold mbind at 1, io_bind at 1.
  erewrite writer_writerows_set; [|by apply lookup_insert_eq].
  rewrite append_nil_l. unfold set_file. simpl. by rewrite insert_insert_eq.
Qed.

Lemma translations_build_outcome s m o w :
  translations_outcome s m o w (translations.build_translation_file s m o w).
Proof.
  unfold translations.build_translation_file.
  destruct (files w !! m) as [mc|] eqn:Hm.
  2: { erewrite bind_raise by (by apply load_translations_missing).
       by constructor. }
  destruct (reader_rows (open_text mc)) as [mrows [e|]] eqn:Hmr.
  { erewrite bind_raise by (by eapply load_translations_raise).
    by constructor. }
  erewrite bind_ok by (by eapply load_translations_ok).
  erewrite bind_ok by apply print_run.
  destruct (files w !! s) as [sc|] eqn:Hs.
  2: { erewrite bind_raise by (by apply translations_read_source_missing).
       by constructor. }
  pose proof (translations_read_source_run s (index_from ∅ mrows)
                (say [MsgLoaded (size (index_from ∅ mrows)) m] w) sc Hs) as Hrs.
  destruct (three_headers (open_text sc)) as [[[hrows hc] rest]|e] eqn:Hh.
  2: { erewrite bind_raise by exact Hrs. by constructor. }
  destruct (reader_rows rest) as [rows [e|]] eqn:Hr.
  { erewrite bind_raise by exact Hrs. by constructor. }
  erewrite bind_ok by exact Hrs. cbv beta iota.
  erewrite bind_ok by apply translations_write_output_run.
  repeat (erewrite bind_ok by apply print_run).
  rewrite print_run. by econstructor.
Qed.

(** ** Rows kept and rows dropped *)

Lemma retained_cons_long k o f more rows :
  retained ((k :: o :: f :: more) :: rows) = (k :: o :: f :: more) :: retained rows.
Proof. unfold retained. rewrite filter_cons_True; [done | simpl; lia]. Qed.

Lemma retained_cons_short r rows :
  length r < 3 -> retained (r :: rows) = retained rows.
Proof. intros H. unfold retained. rewrite filter_cons_False; [done | lia]. Qed.

Lemma resolve_short tr r : length r < 3 -> resolve tr r = None.
Proof. destruct r as [|? [|? [|? ?]]]; simpl; intros; try done; lia. Qed.

Lemma pair_of_short r : length r < 3 -> pair_of r = None.
Proof. destruct r as [|? [|? [|? ?]]]; simpl; intros; try done; lia. Qed.

Lemma resolved_cons_short tr r rows :
  length r < 3 -> resolved tr (r :: rows) = resolved tr rows.
Proof. intros H. unfold resolved. simpl. by rewrite resolve_short. Qed.

Lemma resolved_cons_long tr k o f more rows :
  resolved tr ((k :: o :: f :: more) :: rows) =
    [k; o; default f (tr !! k)] :: resolved tr rows.
Proof. reflexivity. Qed.

Lemma extracted_cons_short r rows :
  length r < 3 -> extracted (r :: rows) = extracted rows.
Proof. intros H. unfold extracted. simpl. by rewrite pair_of_short. Qed.

Lemma extracted_cons_long k o f more rows :
  extracted ((k :: o :: f :: more) :: rows) = [k; o] :: extracted rows.
Proof. reflexivity. Qed.

Lemma resolved_retained tr rows :
  resolved tr rows =
    map (fun r => [default EmptyString (r !! 0); default EmptyString (r !! 1);
                   default (default EmptyString (r !! 2))
                     (tr !! default EmptyString (r !! 0))])
        (retained rows).
Proof.
  induction rows as [|r rows IH]; [done|].
  destruct (decide (length r < 3)) as [Hs|Hl].
  - by rewrite resolved_cons_short, retained_cons_short.
  - destruct r as [|k [|o [|f more]]]; simpl in Hl; try lia.
    by rewrite retained_cons_long, resolved_cons_long, IH.
Qed.

Lemma extracted_retained rows :
  extracted rows =
    map (fun r => [default EmptyString (r !! 0); default EmptyString (r !! 1)])
        (retained rows).
Proof.
  induction rows as [|r rows IH]; [done|].
  destruct (decide (length r < 3)) as [Hs|Hl].
  - by rewrite extracted_cons_short, retained_cons_short.
  - destruct r as [|k [|o [|f more]]]; simpl in Hl; try lia.
    by rewrite retained_cons_long, extracted_cons_long, IH.
Qed.

Lemma resolved_length tr rows : length (resolved tr rows) = length (retained rows).
Proof. by rewrite resolved_retained, length_map. Qed.

Lemma resolved_lookup tr rows i r key original fallback :
  retained rows !! i = Some r ->
  r !! 0 = Some key -> r !! 1 = Some original -> r !! 2 = Some fallback ->
  resolved tr rows !! i = Some [key; original; default fallback (tr !! key)].
Proof.
  intros Hi H0 H1 H2. rewrite resolved_retained, list_lookup_fmap, Hi. simpl.
  by rewrite H0, H1, H2.
Qed.

Lemma resolved_elem tr rows r key original fallback :
  r ∈ rows -> r !! 0 = Some key -> r !! 1 = Some original ->
  r !! 2 = Some fallback ->
  [key; original; default fallback (tr !! key)] ∈ resolved tr rows.
Proof.
  intros Hin H0 H1 H2. unfold resolved. apply list_elem_of_omap.
  exists r. split; [done|].
  destruct r as [|k [|o [|f more]]]; simpl in *; try done.
  by simplify_eq.
Qed.

(** ** The index *)

Lemma index_from_app d a b : index_from d (a ++ b) = index_from (index_from d a) b.
Proof. apply foldl_app. Qed.

Lemma index_from_untouched K d rows :
  existsb (sets_key K) rows = false -> index_from d rows !! K = d !! K.
Proof.
  revert d. induction rows as [|r rows IH]; intros d H; [done|].
  simpl in H. apply orb_false_iff in H as [Hr Hrows].
  simpl. rewrite IH by done.
  destruct r as [|k [|t more]]; simpl in *; try done.
  case_bool_decide; [done|]. by rewrite lookup_insert_ne.
Qed.

Lemma index_from_last K t more d pre post :
  existsb (sets_key K) post = false ->
  index_from d (pre ++ (K :: t :: more) :: post) !! K = Some t.
Proof.
  intros H. rewrite index_from_app. simpl.
  rewrite index_from_untouched by done. apply lookup_insert_eq.
Qed.

(** ** Claims about the rows *)

(** C1. Every record of the source with at least three fields makes the
    merger's loop append the row (key, original, resolved): key and
    original are the first two fields, and resolved is the index entry of
    the key when there is one and the record's third field otherwise.  The
    loop is the one of both programs; they differ in the list it starts
    from. *)
Theorem C1_merger_resolves_row (tr : gmap string string) (lines : textfile)
    (rows : list row) (i : nat) (r : row) (key original fallback : string)
    (m0 : nat) (d0 : list row) (w : world) :
  reader_rows lines = (rows, None) ->
  rows !! i = Some r ->
  3 <= length r ->
  r !! 0 = Some key -> r !! 1 = Some original -> r !! 2 = Some fallback ->
  exists m ds,
    for_row_in_reader lines (build_body tr) (m0, d0) w = (w, Ok (m, d0 ++ ds))
    /\ [key; original;
        match tr !! key with Some text => text | None => fallback end] ∈ ds.
Proof.
  intros Hr Hi _ H0 H1 H2.
  exists (m0 + matched tr rows), (resolved tr rows). split.
  - by rewrite (for_row_in_reader_run lines (build_body tr) (m0, d0) w rows None
               w _ Hr (for_each_build_body tr rows m0 d0 w)).
  - apply (resolved_elem tr rows r key original fallback); try done.
    by eapply list_elem_of_lookup_2.
Qed.

Lemma C1_witness :
  exists m ds,
    for_row_in_reader
      ["k1,hello,salut" +:+ str1 LF; "k2,bye,adieu" +:+ str1 LF]
      (build_body {[ "k1" := "hi" ]}) (0, []) (mkWorld ∅ []) =
      (mkWorld ∅ [], Ok (m, [] ++ ds))
    /\ ["k2"; "bye";
        match ({[ "k1" := "hi" ]} : gmap string string) !! "k2" with
        | Some text => text
        | None => "adieu"
        end] ∈ ds.
Proof.
  apply (C1_merger_resolves_row {[ "k1" := "hi" ]}
           ["k1,hello,salut" +:+ str1 LF; "k2,bye,adieu" +:+ str1 LF]
           [["k1"; "hello"; "salut"]; ["k2"; "bye"; "adieu"]]
           1 ["k2"; "bye"; "adieu"] "k2" "bye" "adieu" 0 [] (mkWorld ∅ []));
    first [reflexivity | simpl; lia].
Defined.

(** C4. When several records of the mapping file set the same key, the
    index the merger builds holds the text of the last one, not that of an
    earlier one, and every source row with that key is resolved to it. *)
Theorem C4_last_duplicate_wins (lines : textfile) (pre mid post : list row)
    (K t1 t2 : string) (x1 x2 : row) (w : world) :
  reader_rows lines =
    (pre ++ [K :: t1 :: x1] ++ mid ++ [K :: t2 :: x2] ++ post, None) ->
  t1 <> t2 ->
  existsb (sets_key K) post = false ->
  exists tr,
    for_row_in_reader lines load_body ∅ w = (w, Ok tr)
    /\ tr !! K = Some t2
    /\ tr !! K <> Some t1
    /\ forall m d original fallback more w',
         build_body tr (m, d) (K :: original :: fallback :: more) w' =
           (w', Ok (m + 1, d ++ [[K; original; t2]])).
Proof.
  intros Hr Hne Hpost.
  set (mrows := pre ++ [K :: t1 :: x1] ++ mid ++ [K :: t2 :: x2] ++ post) in *.
  assert (Hk : index_from ∅ mrows !! K = Some t2).
  { unfold mrows. rewrite !app_assoc, <- (app_assoc _ [_] post).
    by apply index_from_last. }
  exists (index_from ∅ mrows). repeat split.
  - by rewrite (for_row_in_reader_run lines load_body ∅ w mrows None
               w _ Hr (for_each_load_body mrows ∅ w)).
  - done.
  - rewrite Hk. congruence.
  - intros m d original fallback more w'. rewrite build_body_run.
    simpl. unfold dict_contains. rewrite Hk.
    by rewrite bool_decide_eq_true_2 by eauto.
Qed.

Lemma C4_witness :
  exists tr,
    for_row_in_reader
      ["K,old" +:+ str1 LF; "Z,z" +:+ str1 LF; "K,new" +:+ str1 LF]
      load_body ∅ (mkWorld ∅ []) = (mkWorld ∅ [], Ok tr)
    /\ tr !! "K" = Some "new"
    /\ tr !! "K" <> Some "old"
    /\ forall m d original fallback more w',
         build_body tr (m, d) ("K" :: original :: fallback :: more) w' =
           (w', Ok (m + 1, d ++ [["K"; original; "new"]])).
Proof.
  apply (C4_last_duplicate_wins
           ["K,old" +:+ str1 LF; "Z,z" +:+ str1 LF; "K,new" +:+ str1 LF]
           [] [["Z"; "z"]] [] "K" "old" "new" [] [] (mkWorld ∅ []));
    [reflexivity | discriminate | reflexivity].
Defined.

Lemma for_each_skip {A S} (body : S -> A -> io S) (x : A) (pre post : list A) :
  (forall s w, body s x w = (w, Ok s)) ->
  forall s w, for_each (pre ++ x :: post) body s w = for_each (pre ++ post) body s w.
Proof.
  intros Hx. induction pre as [|y pre IH]; intros s w; simpl.
  - by erewrite bind_ok by apply Hx.
  - unfold mbind, io_bind. destruct (body s y w) as [w' [s'|e]]; [apply IH | done].
Qed.

(** C5. A record with fewer than three fields is passed over by the loop
    of the extractor and by the loop of the merger: the body ends without an
    exception, writes nothing and appends nothing, so each loop runs as if
    the record were not in the source. *)
Theorem C5_short_row_dropped (r : row) (fout : string) (n : nat)
    (tr : gmap string string) (s : nat * list row) (pre post : list row)
    (w : world) :
  length r < 3 ->
  create_body fout n r w = (w, Ok n)
  /\ build_body tr s r w = (w, Ok s)
  /\ for_each (pre ++ r :: post) (create_body fout) n w =
       for_each (pre ++ post) (create_body fout) n w
  /\ for_each (pre ++ r :: post) (build_body tr) s w =
       for_each (pre ++ post) (build_body tr) s w.
Proof.
  intros Hlen.
  assert (Hc : forall n w, create_body fout n r w = (w, Ok n)).
  { intros n' w'. unfold create_body.
    rewrite bool_decide_eq_false_2 by lia. done. }
  assert (Hb : forall s w, build_body tr s r w = (w, Ok s)).
  { intros [m d] w'. unfold build_body.
    rewrite bool_decide_eq_false_2 by lia. done. }
  repeat split; [apply Hc | apply Hb | by apply for_each_skip..].
Qed.

Lemma C5_witness :
  create_body "m.csv" 4 ["k"; "only two"] (mkWorld {[ "m.csv" := "x" ]} []) =
    (mkWorld {[ "m.csv" := "x" ]} [], Ok 4)
  /\ build_body ∅ (1, [["a"; "b"; "c"]]) ["k"; "only two"]
       (mkWorld {[ "m.csv" := "x" ]} []) =
     (mkWorld {[ "m.csv" := "x" ]} [], Ok (1, [["a"; "b"; "c"]]))
  /\ for_each ([["p"; "q"; "r"]] ++ ["k"; "only two"] :: [["u"; "v"; "w"]])
       (create_body "m.csv") 4 (mkWorld {[ "m.csv" := "x" ]} []) =
     for_each ([["p"; "q"; "r"]] ++ [["u"; "v"; "w"]])
       (create_body "m.csv") 4 (mkWorld {[ "m.csv" := "x" ]} [])
  /\ for_each ([["p"; "q"; "r"]] ++ ["k"; "only two"] :: [["u"; "v"; "w"]])
       (build_body ∅) (1, [["a"; "b"; "c"]]) (mkWorld {[ "m.csv" := "x" ]} []) =
     for_each ([["p"; "q"; "r"]] ++ [["u"; "v"; "w"]])
       (build_body ∅) (1, [["a"; "b"; "c"]]) (mkWorld {[ "m.csv" := "x" ]} []).
Proof.
  apply (C5_short_row_dropped ["k"; "only two"] "m.csv" 4 ∅
           (1, [["a"; "b"; "c"]]) [["p"; "q"; "r"]] [["u"; "v"; "w"]]
           (mkWorld {[ "m.csv" := "x" ]} [])).
  simpl. lia.
Defined.

(** C6. The merger of [transcmd.py] writes, after the header lines, as
    many rows as the records read after the header that have at least
    three fields. *)
Theorem C6_row_count (s m o : string) (w : world) (mc sc : string)
    (mrows rows : list row) (hdr : list string) (rest : textfile) :
  files w !! m = Some mc ->
  reader_rows (open_text mc) = (mrows, None) ->
  files w !! s = Some sc ->
  transcmd.read_header (open_text sc) = (hdr, rest) ->
  reader_rows rest = (rows, None) ->
  exists w' tr matched_count data_rows,
    load_translations m w = (w, Ok tr)
    /\ transcmd.read_source s tr w = (w, Ok (hdr, matched_count, data_rows))
    /\ transcmd.build_translation_file s m o w = (w', Ok tt)
    /\ files w' !! o = Some (join_lines hdr +:+ writerows data_rows)
    /\ length data_rows = length (filter (fun r => 3 <= length r) rows).
Proof.
  intros Hm Hmr Hs Hh Hr.
  eexists _, (index_from ∅ mrows), _, _. split; [|split; [|split; [|split]]].
  - by eapply load_translations_ok.
  - by eapply transcmd_read_source_ok.
  - by eapply transcmd_build_run.
  - apply set_file_lookup.
  - apply resolved_length.
Qed.

Lemma C6_witness :
  exists w' tr matched_count data_rows,
    load_translations "map.csv" demo_world = (demo_world, Ok tr)
    /\ transcmd.read_source "src.csv" tr demo_world =
      (demo_world,
       Ok (["Language" +:+ str1 LF; str1 LF; "NormalText" +:+ str1 LF],
           matched_count, data_rows))
    /\ transcmd.build_translation_file "src.csv" "map.csv" "out.csv" demo_world =
         (w', Ok tt)
    /\ files w' !! "out.csv" =
         Some (join_lines ["Language" +:+ str1 LF; str1 LF; "NormalText" +:+ str1 LF]
               +:+ writerows data_rows)
    /\ length data_rows =
         length (filter (fun r => 3 <= length r)
                   [["k1"; "hello"; "salut"]; ["k2"; "short"];
                    ["k3"; "bye"; "adieu"; "extra"]]).
Proof.
  apply (C6_row_count "src.csv" "map.csv" "out.csv" demo_world
           demo_mapping demo_source [["k3"; "farewell"]; ["lonely"]]
           [["k1"; "hello"; "salut"]; ["k2"; "short"];
            ["k3"; "bye"; "adieu"; "extra"]]
           ["Language" +:+ str1 LF; str1 LF; "NormalText" +:+ str1 LF]
           ["k1,hello,salut" +:+ str1 LF; "k2,short" +:+ str1 LF;
            "k3,bye,adieu,extra" +:+ str1 LF]);
    reflexivity.
Defined.

(** C7. The rows the merger of [transcmd.py] writes follow the order of
    the source: the i-th row written carries the key and the original text
    of the i-th record, among those read after the header, that has at
    least three fields. *)
Theorem C7_order_preserved (s m o : string) (w : world) (mc sc : string)
    (mrows rows : list row) (hdr : list string) (rest : textfile) :
  files w !! m = Some mc ->
  reader_rows (open_text mc) = (mrows, None) ->
  files w !! s = Some sc ->
  transcmd.read_header (open_text sc) = (hdr, rest) ->
  reader_rows rest = (rows, None) ->
  exists w' tr matched_count data_rows,
    load_translations m w = (w, Ok tr)
    /\ transcmd.read_source s tr w = (w, Ok (hdr, matched_count, data_rows))
    /\ transcmd.build_translation_file s m o w = (w', Ok tt)
    /\ files w' !! o = Some (join_lines hdr +:+ writerows data_rows)
    /\ length data_rows = length (retained rows)
    /\ forall i r key original,
         retained rows !! i = Some r ->
         r !! 0 = Some key -> r !! 1 = Some original ->
         exists text, data_rows !! i = Some [key; original; text].
Proof.
  intros Hm Hmr Hs Hh Hr.
  eexists _, (index_from ∅ mrows), _, _.
  split; [|split; [|split; [|split; [|split]]]].
  - by eapply load_translations_ok.
  - by eapply transcmd_read_source_ok.
  - by eapply transcmd_build_run.
  - apply set_file_lookup.
  - apply resolved_length.
  - intros i r key original Hi H0 H1.
    assert (is_Some (r !! 2)) as [fallback H2].
    { apply lookup_lt_is_Some.
      apply list_elem_of_lookup_2, list_elem_of_filter in Hi as [Hi _]. lia. }
    eexists. by eapply resolved_lookup.
Qed.

Lemma C7_witness :
  exists w' tr matched_count data_rows,
    load_translations "map.csv" demo_world = (demo_world, Ok tr)
    /\ transcmd.read_source "src.csv" tr demo_world =
      (demo_world,
       Ok (["Language" +:+ str1 LF; str1 LF; "NormalText" +:+ str1 LF],
           matched_count, data_rows))
    /\ transcmd.build_translation_file "src.csv" "map.csv" "out.csv" demo_world =
         (w', Ok tt)
    /\ files w' !! "out.csv" =
         Some (join_lines ["Language" +:+ str1 LF; str1 LF; "NormalText" +:+ str1 LF]
               +:+ writerows data_rows)
    /\ length data_rows =
         length (retained [["k1"; "hello"; "salut"]; ["k2"; "short"];
                           ["k3"; "bye"; "adieu"; "extra"]])
    /\ forall i r key original,
         retained [["k1"; "hello"; "salut"]; ["k2"; "short"];
                   ["k3"; "bye"; "adieu"; "extra"]] !! i = Some r ->
         r !! 0 = Some key -> r !! 1 = Some original ->
         exists text, data_rows !! i = Some [key; original; text].
Proof.
  apply (C7_order_preserved "src.csv" "map.csv" "out.csv" demo_world
           demo_mapping demo_source [["k3"; "farewell"]; ["lonely"]]
           [["k1"; "hello"; "salut"]; ["k2"; "short"];
            ["k3"; "bye"; "adieu"; "extra"]]
           ["Language" +:+ str1 LF; str1 LF; "NormalText" +:+ str1 LF]
           ["k1,hello,salut" +:+ str1 LF; "k2,short" +:+ str1 LF;
            "k3,bye,adieu,extra" +:+ str1 LF]);
    reflexivity.
Defined.

(** ** The entry points: a missing mapping file *)

Lemma path_exists_run p w :
  path_exists p w = (w, Ok (bool_decide (is_Some (files w !! p)))).
Proof. reflexivity. Qed.

Lemma transcmd_main_build_missing_mapping source mapping output w :
  files w !! mapping = None ->
  transcmd.main (transcmd.Build source mapping output) w =
    (say [if bool_decide (is_Some (files w !! source))
          then MsgMappingNotFound mapping
          else MsgSourceNotFound source] w,
     Ok tt).
Proof.
  intros Hm. unfold transcmd.main.
  erewrite bind_ok by apply path_exists_run.
  case_bool_decide; simpl; [|done].
  erewrite bind_ok by apply path_exists_run.
  rewrite bool_decide_eq_false_2; [done|]. rewrite Hm. by intros [? ?].
Qed.

Lemma translations_main_build_missing_mapping prog cmd source mapping more w :
  translations.lower cmd = "build" ->
  files w !! mapping = None ->
  translations.main (prog :: cmd :: source :: mapping :: more) w =
    (say [if bool_decide (is_Some (files w !! source))
          then MsgMappingNotFound mapping
          else MsgSourceNotFound source] w,
     Ok tt).
Proof.
  intros Hcmd Hm. unfold translations.main.
  rewrite bool_decide_eq_false_2 by (simpl; lia).
  io_simpl. rewrite Hcmd. simpl.
  rewrite !ret_bind.
  assert (Ho : exists out,
    (if bool_decide (4 < S (S (S (S (length more)))))
     then getitem (prog :: cmd :: source :: mapping :: more) 4
     else (mret "#GF_custom.csv" : io string)) w = (w, Ok out)).
  { case_bool_decide; [|by eexists].
    destruct more as [|x more]; simpl in *; [lia | by eexists]. }
  destruct Ho as [out Ho]. erewrite bind_ok by exact Ho. clear Ho.
  erewrite bind_ok by apply path_exists_run.
  case_bool_decide; simpl; [|done].
  erewrite bind_ok by apply path_exists_run.
  rewrite bool_decide_eq_false_2; [done|]. rewrite Hm. by intros [? ?].
Qed.

(** C9, as amended.  When the mapping path names no file, [main] of either
    program prints one message and returns, and the file system is what it
    was: the message is "Mapping file not found" when the source exists; the
    source is checked first, so when it is missing too the message is "Source
    file not found". *)
Theorem C9_missing_mapping_short_circuit (source mapping output : string)
    (prog cmd : string) (more : list string) (w : world) :
  files w !! mapping = None ->
  translations.lower cmd = "build" ->
  let report :=
    if bool_decide (is_Some (files w !! source))
    then MsgMappingNotFound mapping
    else MsgSourceNotFound source in
  transcmd.main (transcmd.Build source mapping output) w =
    (mkWorld (files w) (console w ++ [report]), Ok tt)
  /\ translations.main (prog :: cmd :: source :: mapping :: more) w =
       (mkWorld (files w) (console w ++ [report]), Ok tt).
Proof.
  intros Hm Hcmd report. split.
  - by apply transcmd_main_build_missing_mapping.
  - by apply translations_main_build_missing_mapping.
Qed.

Lemma C9_witness :
  transcmd.main (transcmd.Build "src.csv" "nowhere.csv" "out.csv") demo_world =
    (mkWorld (files demo_world)
       (console demo_world ++ [MsgMappingNotFound "nowhere.csv"]), Ok tt)
  /\ translations.main
       ["translations.py"; "Build"; "src.csv"; "nowhere.csv"] demo_world =
     (mkWorld (files demo_world)
        (console demo_world ++ [MsgMappingNotFound "nowhere.csv"]), Ok tt).
Proof.
  apply (C9_missing_mapping_short_circuit "src.csv" "nowhere.csv" "out.csv"
           "translations.py" "Build" [] demo_world);
    reflexivity.
Defined.

(** C9 as stated fails when the source is missing as well: the failure
    reported is then the one about the source. *)
Lemma C9_counterexample :
  ~ (forall source mapping output w,
       files w !! mapping = None ->
       transcmd.main (transcmd.Build source mapping output) w =
         (mkWorld (files w) (console w ++ [MsgMappingNotFound mapping]), Ok tt)).
Proof.
  intros H.
  specialize (H "src.csv" "map.csv" "out.csv" (mkWorld ∅ []) eq_refl).
  vm_compute in H. discriminate H.
Qed.

(** ** Input-side failures leave the file system alone *)

Lemma load_translations_world m w : (load_translations m w).1 = w.
Proof.
  destruct (files w !! m) as [mc|] eqn:Hm.
  - destruct (reader_rows (open_text mc)) as [rows err] eqn:Hr.
    by erewrite load_translations_run.
  - by rewrite load_translations_missing.
Qed.

Lemma transcmd_read_source_world s tr w : (transcmd.read_source s tr w).1 = w.
Proof.
  destruct (files w !! s) as [sc|] eqn:Hs.
  - destruct (transcmd.read_header (open_text sc)) as [hdr rest] eqn:Hh.
    destruct (reader_rows rest) as [rows err] eqn:Hr.
    by erewrite transcmd_read_source_run.
  - by rewrite transcmd_read_source_missing.
Qed.

Lemma translations_read_source_world s tr w :
  (translations.read_source s tr w).1 = w.
Proof.
  destruct (files w !! s) as [sc|] eqn:Hs.
  - by erewrite translations_read_source_run.
  - by rewrite translations_read_source_missing.
Qed.

(** C10. In both programs the two blocks that read the inputs change
    nothing, whatever they return, and a run of the merger ends in one of
    two ways: with an exception and every file as it was when the run began,
    or normally, with the output path holding text computed from what the
    mapping and the source held when the run began (also when the output
    path is one of them). *)
Theorem C10_output_written_last (s m o : string) (tr : gmap string string)
    (w : world) :
  (load_translations m w).1 = w
  /\ (transcmd.read_source s tr w).1 = w
  /\ (translations.read_source s tr w).1 = w
  /\ transcmd_outcome s m o w (transcmd.build_translation_file s m o w)
  /\ translations_outcome s m o w (translations.build_translation_file s m o w).
Proof.
  repeat split.
  - apply load_translations_world.
  - apply transcmd_read_source_world.
  - apply translations_read_source_world.
  - apply transcmd_build_outcome.
  - apply translations_build_outcome.
Qed.

(** A run that fails on the input side: the source is missing. *)
Example build_raises_without_source :
  transcmd.build_translation_file "gone.csv" "map.csv" "map.csv" demo_world =
    (mkWorld (files demo_world) [MsgLoaded 1 "map.csv"],
     Raise (FileNotFoundError "gone.csv")).
Proof. reflexivity. Qed.

(** A run whose output path is its source: the source is read whole
    before it is overwritten. *)
Example build_over_its_source :
  (transcmd.build_translation_file "src.csv" "map.csv" "src.csv" demo_world).1
    = mkWorld
        {[ "src.csv" :=
             "Language" +:+ str1 LF +:+ str1 LF +:+ "NormalText" +:+ str1 LF
             +:+ writerows [["k1"; "hello"; "salut"]; ["k3"; "bye"; "farewell"]];
           "map.csv" := demo_mapping ]}
        [MsgLoaded 1 "map.csv"; MsgCreatedTranslation "src.csv";
         MsgPreservedRaw; MsgUpdated 1; MsgTotalDataRows 2].
Proof. vm_compute. reflexivity. Qed.

(** ** The two mergers against each other *)

Lemma Reader_iternext_record_line l rest :
  line_is_record l = true ->
  exists r, Reader_iternext (l :: rest) = Ok (Some r, rest).
Proof.
  unfold line_is_record, Reader_iternext. simpl.
  destruct (process_line parse_reset l) as [self|e]; [|done].
  intros H. simpl. rewrite H. by eexists.
Qed.

Lemma keep_header_record_line rows l rest :
  line_is_record l = true ->
  exists rows', keep_header (rows, length rows, l :: rest) =
                  Ok (rows', length rows', rest).
Proof.
  intros H. destruct (Reader_iternext_record_line l rest H) as [r Hr].
  unfold keep_header. rewrite Hr. destruct r as [|x r].
  - by exists rows.
  - exists (rows ++ [x :: r]). rewrite length_app. simpl. done.
Qed.

Lemma keep_header_eof rows hc : keep_header (rows, hc, []) = Ok (rows, hc, []).
Proof. reflexivity. Qed.

Lemma transcmd_read_header_rest lines :
  (transcmd.read_header lines).2 = drop 3 lines.
Proof.
  unfold transcmd.read_header, transcmd.header_step, readline.
  destruct lines as [|l1 [|l2 [|l3 rest]]]; simpl;
    repeat case_bool_decide; done.
Qed.

Lemma three_headers_record_lines lines :
  forallb line_is_record (take 3 lines) = true ->
  exists hrows, three_headers lines = Ok (hrows, length hrows, drop 3 lines).
Proof.
  intros H. unfold three_headers, mbind, result_bind.
  destruct lines as [|l1 lines]; [by exists []|].
  simpl in H. apply andb_prop in H as [H1 H].
  destruct (keep_header_record_line [] l1 lines H1) as [r1 E1].
  change (length []) with 0 in E1.
  destruct lines as [|l2 lines]; [exists r1; by rewrite E1|].
  simpl in H. apply andb_prop in H as [H2 H].
  destruct (keep_header_record_line r1 l2 lines H2) as [r2 E2].
  destruct lines as [|l3 lines]; [exists r2; by rewrite E1, E2|].
  simpl in H. apply andb_prop in H as [H3 _].
  destruct (keep_header_record_line r2 l3 lines H3) as [r3 E3].
  exists r3. by rewrite E1, E2, E3.
Qed.

(** C8, as amended.  When each of the first three lines of the source is
    a complete record on its own, the two mergers resolve the same data
    rows, in the same order and with the same count of matches, or raise
    the same exception: the rows [translations.py] appends after the header
    records it kept are the rows [transcmd.py] collects. *)
Theorem C8_same_data_rows (s sc : string) (tr : gmap string string) (w : world) :
  files w !! s = Some sc ->
  forallb line_is_record (take 3 (open_text sc)) = true ->
  match transcmd.read_source s tr w, translations.read_source s tr w with
  | (_, Ok (_, matched_count, data_rows)),
    (_, Ok (rows, header_count, matched_count')) =>
      drop header_count rows = data_rows /\ matched_count' = matched_count
  | (_, Raise e), (_, Raise e') => e = e'
  | _, _ => False
  end.
Proof.
  intros Hs Hl.
  destruct (three_headers_record_lines _ Hl) as [hrows Hh].
  destruct (transcmd.read_header (open_text sc)) as [hdr rest] eqn:Ht.
  pose proof (transcmd_read_header_rest (open_text sc)) as Hrest.
  rewrite Ht in Hrest. simpl in Hrest. subst rest.
  destruct (reader_rows (drop 3 (open_text sc))) as [rows err] eqn:Hr.
  rewrite (transcmd_read_source_run s tr w sc hdr _ rows err Hs Ht Hr).
  rewrite (translations_read_source_run s tr w sc Hs), Hh, Hr.
  destruct err as [e|]; [done|]. split; [|done].
  by rewrite drop_app_length.
Qed.

Lemma C8_witness :
  match transcmd.read_source "src.csv" {[ "k3" := "farewell" ]} demo_world_lf,
        translations.read_source "src.csv" {[ "k3" := "farewell" ]} demo_world_lf
  with
  | (_, Ok (_, matched_count, data_rows)),
    (_, Ok (rows, header_count, matched_count')) =>
      drop header_count rows = data_rows /\ matched_count' = matched_count
  | (_, Raise e), (_, Raise e') => e = e'
  | _, _ => False
  end.
Proof.
  apply (C8_same_data_rows "src.csv" demo_source {[ "k3" := "farewell" ]}
           demo_world_lf);
    reflexivity.
Defined.

(** C8 as stated fails on [two_line_header_source]: [transcmd.py] takes
    three lines for the header and resolves two data rows,
    [translations.py] takes three records and resolves one. *)
Lemma C8_counterexample :
  ~ (forall s tr w hdr matched_count data_rows rows header_count matched_count',
       transcmd.read_source s tr w = (w, Ok (hdr, matched_count, data_rows)) ->
       translations.read_source s tr w =
         (w, Ok (rows, header_count, matched_count')) ->
       drop header_count rows = data_rows).
Proof.
  intros H.
  specialize (H "src.csv" ∅ (mkWorld {[ "src.csv" := two_line_header_source ]} [])
                [str1 DQUOTE +:+ "Title" +:+ str1 LF;
                 "continued" +:+ str1 DQUOTE +:+ ",x,y" +:+ str1 LF;
                 "h2" +:+ str1 LF]
                0 [["k0"; "a"; "b"]; ["k1"; "c"; "d"]]
                [["Title" +:+ str1 LF +:+ "continued"; "x"; "y"]; ["h2"];
                 ["k0"; "a"; "b"]; ["k1"; "c"; "d"]]
                3 0 eq_refl eq_refl).
  vm_compute in H. discriminate H.
Qed.

(** ** The header as the merger of [transcmd.py] copies it *)

(** C2 fails on [crlf_source], a source with Windows line ends.  The
    source is opened without [newline=''], so every CR LF is read as LF, and
    the header lines go out, through a file opened with [newline=''], with LF
    alone: the first three lines of the output are not those of the
    source. *)
Theorem C2_crlf_header_rewritten :
  exists w' out,
    transcmd.build_translation_file "src.csv" "map.csv" "out.csv" crlf_world =
      (w', Ok tt)
    /\ files w' !! "out.csv" = Some out
    /\ take 3 (splitlines crlf_source) =
         ["Language" +:+ CRLF; CRLF; "NormalText" +:+ CRLF]
    /\ take 3 (splitlines out) =
         ["Language" +:+ str1 LF; str1 LF; "NormalText" +:+ str1 LF]
    /\ take 3 (splitlines out) <> take 3 (splitlines crlf_source).
Proof.
  eexists _, _. split; [|split; [|split; [|split]]].
  - vm_compute. reflexivity.
  - vm_compute. reflexivity.
  - reflexivity.
  - reflexivity.
  - vm_compute. discriminate.
Qed.

(** ** Reading back what the writer wrote *)

Lemma splitlines_nonempty c s : splitlines (String c s) <> [].
Proof.
  simpl. destruct (Ascii.eqb c LF); [done|].
  by destruct (splitlines s).
Qed.

Lemma read_text_char self c s :
  c <> LF -> s <> EmptyString ->
  read_text self (String c s) =
    match parse_process_char self (Ch c) with
    | Raise e => ([], Some e)
    | Ok self' => read_text self' s
    end.
Proof.
  intros Hc Hs. unfold read_text. simpl splitlines.
  rewrite (proj2 (Ascii.eqb_neq c LF)) by done.
  destruct s as [|c' s']; [done|].
  pose proof (splitlines_nonempty c' s') as Hne.
  destruct (splitlines (String c' s')) as [|l ls]; [done|].
  simpl. unfold mbind, result_bind.
  by destruct (parse_process_char self (Ch c)).
Qed.

Lemma read_text_LF self s :
  read_text self (String LF s) =
    match parse_process_char self (Ch LF) with
    | Raise e => ([], Some e)
    | Ok self1 =>
        match parse_process_char self1 EOL with
        | Raise e => ([], Some e)
        | Ok self2 =>
            if bool_decide (state self2 = START_RECORD)
            then let '(rs, e) := read_text parse_reset s in
                 (fields self2 :: rs, e)
            else read_text self2 s
        end
    end.
Proof.
  unfold read_text. simpl. unfold mbind, result_bind.
  by destruct (parse_process_char self (Ch LF)) as [self1|e].
Qed.

Lemma parse_add_char_fits self c :
  fits (field self +:+ str1 c) ->
  parse_add_char self c =
    Ok {| state := state self; fields := fields self;
          field := field self +:+ str1 c |}.
Proof.
  unfold fits, parse_add_char. rewrite length_append. simpl. intros H.
  destruct (N.leb_spec field_limit (N.of_nat (String.length (field self))));
    [lia | done].
Qed.

Lemma fits_prefix a b : fits (a +:+ b) -> fits a.
Proof. unfold fits. rewrite length_append. lia. Qed.

(** The characters of a quoted field, up to its closing quote. *)
Lemma read_text_quoted_field f : forall fs b s,
  s <> EmptyString ->
  fits (b +:+ f) ->
  read_text (mkReader IN_QUOTED_FIELD fs b) (double_quotes f +:+ s) =
  read_text (mkReader IN_QUOTED_FIELD fs (b +:+ f)) s.
Proof.
  induction f as [|c f IH]; intros fs b s Hs Hfit.
  - by rewrite append_nil_r.
  - assert (Hb : b +:+ String c f = (b +:+ str1 c) +:+ f)
      by (by rewrite append_assoc).
    rewrite Hb in Hfit. rewrite Hb.
    assert (Hadd : forall st, parse_add_char (mkReader st fs b) c =
                              Ok (mkReader st fs (b +:+ str1 c))).
    { intros st. apply parse_add_char_fits. simpl. by eapply fits_prefix. }
    simpl double_quotes. destruct (Ascii.eqb_spec c DQUOTE) as [->|Hq].
    + rewrite !append_cons.
      rewrite read_text_char; [|done|done].
      unfold parse_process_char at 1. simpl.
      rewrite read_text_char; [|done|by destruct (double_quotes f)].
      unfold parse_process_char at 1. simpl.
      unfold set_state. simpl. rewrite Hadd. simpl. by apply IH.
    + rewrite append_cons. destruct (Ascii.eqb_spec c LF) as [->|Hl].
      * rewrite read_text_LF.
        unfold parse_process_char at 1. simpl. rewrite Hadd.
        unfold parse_process_char at 1. simpl. by apply IH.
      * rewrite read_text_char; [|done|by destruct (double_quotes f)].
        unfold parse_process_char at 1. simpl.
        rewrite (proj2 (Ascii.eqb_neq c DQUOTE)) by done.
        rewrite Hadd. by apply IH.
Qed.

Lemma append_nonempty a c b : a +:+ String c b <> EmptyString.
Proof. by destruct a. Qed.

Lemma DQUOTE_not_LF : DQUOTE <> LF.
Proof. discriminate. Qed.

Lemma COMMA_not_LF : COMMA <> LF.
Proof. discriminate. Qed.

Ltac text_side :=
  first [ exact DQUOTE_not_LF | exact COMMA_not_LF
        | apply append_nonempty | discriminate | done ].

Lemma quote_field_append f x :
  quote_field f +:+ x = String DQUOTE (double_quotes f +:+ String DQUOTE x).
Proof. unfold quote_field. by rewrite append_cons, append_assoc. Qed.

Lemma join_fields_cons f r :
  join_fields (f :: r) =
    quote_field f +:+ match r with
                      | [] => EmptyString
                      | _ :: _ => String COMMA (join_fields r)
                      end.
Proof. destruct r; simpl; [by rewrite append_nil_r | done]. Qed.

(** The fields of a written record, from the start of its first field to
    the end of its line. *)
Lemma read_text_fields r : forall fs s,
  r <> [] -> Forall fits r ->
  read_text (mkReader START_FIELD fs EmptyString)
            (join_fields r +:+ String LF s) =
    let '(rs, e) := read_text parse_reset s in ((fs ++ r) :: rs, e).
Proof.
  induction r as [|f r IH]; intros fs s Hne Hfit; [done|].
  apply Forall_cons in Hfit as [Hf Hr].
  rewrite join_fields_cons, append_assoc, quote_field_append.
  rewrite read_text_char; [|text_side..].
  unfold parse_process_char at 1. simpl. unfold set_state. simpl.
  rewrite read_text_quoted_field; [|text_side..]. rewrite append_nil_l.
  destruct r as [|g r].
  - rewrite append_nil_l.
    rewrite read_text_char; [|text_side..].
    unfold parse_process_char at 1. simpl.
    rewrite read_text_LF.
    unfold parse_process_char at 1. simpl.
    done.
  - rewrite append_cons.
    rewrite read_text_char; [|text_side..].
    unfold parse_process_char at 1. simpl.
    rewrite read_text_char; [|text_side..].
    unfold parse_process_char at 1. simpl.
    unfold set_state, parse_save_field. simpl.
    rewrite IH; [|done|done].
    destruct (read_text parse_reset s) as [rs e].
    by rewrite <- app_assoc.
Qed.

Lemma read_text_written rows :
  Forall (fun r => r <> [] /\ Forall fits r) rows ->
  read_text parse_reset (written_lf rows) = (rows, None).
Proof.
  induction rows as [|r rows IH]; intros H; [done|].
  apply Forall_cons in H as [[Hne Hfit] Hrows].
  simpl written_lf.
  assert (Hstart : forall x,
    read_text parse_reset (String DQUOTE x) =
    read_text (mkReader START_FIELD [] EmptyString) (String DQUOTE x)).
  { intros x. unfold read_text. simpl splitlines.
    destruct (splitlines x) as [|l ls]; reflexivity. }
  destruct r as [|f r]; [done|].
  rewrite join_fields_cons, append_assoc, quote_field_append, Hstart.
  rewrite <- quote_field_append, <- append_assoc, <- join_fields_cons.
  rewrite read_text_fields; [|done|done].
  by rewrite IH.
Qed.

(** ** Text without carriage returns *)

Lemma no_cr_append a b : no_cr (a +:+ b) = no_cr a && no_cr b.
Proof.
  induction a as [|c a IH]; [done|].
  rewrite append_cons. simpl. by rewrite IH, andb_assoc.
Qed.

Lemma no_cr_translate pendingcr s : no_cr (translate_newlines pendingcr s) = true.
Proof.
  revert pendingcr. induction s as [|c s IH]; intros p; [done|]. simpl.
  destruct (Ascii.eqb_spec c CR) as [->|Hc]; [by simpl; rewrite IH|].
  destruct (Ascii.eqb_spec c LF) as [->|Hl].
  - destruct p; simpl; by rewrite IH.
  - simpl. rewrite IH. by rewrite (proj2 (Ascii.eqb_neq c CR)).
Qed.

Lemma translate_no_cr_append a b :
  no_cr a = true ->
  translate_newlines false (a +:+ b) = a +:+ translate_newlines false b.
Proof.
  induction a as [|c a IH]; [done|]. simpl. intros H.
  apply andb_prop in H as [Hc Ha]. rewrite !append_cons. simpl.
  destruct (Ascii.eqb c CR); [discriminate Hc|].
  destruct (Ascii.eqb_spec c LF) as [->|_]; by rewrite IH.
Qed.

Lemma translate_crlf b :
  translate_newlines false (CRLF +:+ b) = String LF (translate_newlines false b).
Proof. reflexivity. Qed.

Lemma no_cr_double_quotes f : no_cr (double_quotes f) = no_cr f.
Proof.
  induction f as [|c f IH]; [done|]. simpl.
  destruct (Ascii.eqb_spec c DQUOTE) as [->|Hq]; simpl; by rewrite IH.
Qed.

Lemma no_cr_quote_field f : no_cr (quote_field f) = no_cr f.
Proof.
  unfold quote_field. simpl. rewrite no_cr_append, no_cr_double_quotes.
  simpl. by rewrite andb_true_r.
Qed.

Lemma no_cr_join_fields r :
  Forall (fun f => no_cr f = true) r -> no_cr (join_fields r) = true.
Proof.
  induction r as [|f r IH]; intros H; [done|].
  apply Forall_cons in H as [Hf Hr]. rewrite join_fields_cons.
  rewrite no_cr_append, no_cr_quote_field, Hf. simpl.
  destruct r; [done|]. simpl no_cr at 1. by apply IH.
Qed.

Lemma universal_newlines_writerows rows :
  Forall (Forall (fun f => no_cr f = true)) rows ->
  universal_newlines (writerows rows) = written_lf rows.
Proof.
  unfold universal_newlines.
  induction rows as [|r rows IH]; intros H; [done|].
  apply Forall_cons in H as [Hr Hrows]. simpl. unfold writerow.
  rewrite append_assoc, translate_no_cr_append by (by apply no_cr_join_fields).
  by rewrite translate_crlf, IH.
Qed.

Theorem reader_rows_writerows rows :
  Forall (fun r => r <> [] /\ Forall good_field r) rows ->
  reader_rows (open_text (writerows rows)) = (rows, None).
Proof.
  intros H. unfold open_text. rewrite universal_newlines_writerows.
  - apply read_text_written. eapply Forall_impl; [exact H|].
    intros r [Hne Hr]. split; [done|].
    eapply Forall_impl; [exact Hr|]. by intros f [? ?].
  - eapply Forall_impl; [exact H|]. intros r [_ Hr].
    eapply Forall_impl; [exact Hr|]. by intros f [? ?].
Qed.

(** ** What the reader delivers *)

Lemma good_field_empty : good_field EmptyString.
Proof. split; [unfold fits; simpl; unfold field_limit; lia | done]. Qed.

Lemma good_reader_reset : good_reader parse_reset.
Proof. split; [apply good_field_empty | constructor]. Qed.

Lemma good_set_state self st : good_reader self -> good_reader (set_state self st).
Proof. done. Qed.

Lemma good_save_field self : good_reader self -> good_reader (parse_save_field self).
Proof.
  intros [Hf Hfs]. split; [apply good_field_empty|]. simpl.
  apply Forall_app. split; [done | by constructor].
Qed.

Lemma good_add_char self c self' :
  good_reader self -> c <> CR ->
  parse_add_char self c = Ok self' ->
  good_reader self' /\ state self' = state self.
Proof.
  intros [[Hfit Hcr] Hfs] Hc. unfold parse_add_char.
  destruct (N.leb_spec field_limit (N.of_nat (String.length (field self))));
    [done|].
  intros [= <-]. split; [|done]. split; [|done]. split; simpl.
  - unfold fits. rewrite length_append. simpl. lia.
  - rewrite no_cr_append, Hcr. simpl.
    by rewrite (proj2 (Ascii.eqb_neq c CR)).
Qed.

Lemma good_process_START_FIELD self c self' :
  good_reader self -> input_no_cr c ->
  process_START_FIELD self c = Ok self' -> good_reader self'.
Proof.
  intros Hg Hc. unfold process_START_FIELD.
  destruct c as [a|]; [|intros [= <-]; by apply good_set_state, good_save_field].
  repeat case_match; try (intros [= <-]);
    auto using good_set_state, good_save_field.
  unfold mbind, result_bind.
  destruct (parse_add_char self a) as [s1|e] eqn:Ha; [|done].
  intros [= <-]. apply good_set_state. by eapply good_add_char.
Qed.

Lemma good_process_char self c self' :
  good_reader self -> input_no_cr c ->
  parse_process_char self c = Ok self' -> good_reader self'.
Proof.
  intros Hg Hc. unfold parse_process_char.
  destruct (state self); destruct c as [a|];
    repeat case_match; unfold mbind, result_bind;
    try (intros [= <-]); try done;
    eauto using good_set_state, good_save_field, good_process_START_FIELD.
  all: try (intros Ha; by eapply good_add_char).
  all: destruct (parse_add_char self a) as [s1|e] eqn:Ha; [|done];
       intros [= <-]; apply good_set_state; by eapply good_add_char.
Qed.

Lemma good_process_line l : forall self self',
  good_reader self -> no_cr l = true ->
  process_line self l = Ok self' -> good_reader self'.
Proof.
  induction l as [|c l IH]; intros self self' Hg Hl; simpl.
  - by apply good_process_char.
  - simpl in Hl. apply andb_prop in Hl as [Hc Hl].
    unfold mbind, result_bind.
    destruct (parse_process_char self (Ch c)) as [s1|e] eqn:H1; [|done].
    apply IH; [|done]. eapply good_process_char; [exact Hg| |exact H1].
    simpl. intros ->. done.
Qed.

Lemma good_reader_rows_from lines : forall self rows err,
  good_reader self ->
  Forall (fun l => no_cr l = true) lines ->
  reader_rows_from self lines = (rows, err) ->
  Forall (Forall good_field) rows.
Proof.
  induction lines as [|l lines IH]; intros self rows err Hg Hl; simpl.
  - destruct (pending self); intros [= <- <-]; [|constructor].
    constructor; [|constructor]. by apply good_save_field.
  - apply Forall_cons in Hl as [Hl Hlines].
    destruct (process_line self l) as [s1|e] eqn:H1;
      [|intros [= <- <-]; constructor].
    pose proof (good_process_line l self s1 Hg Hl H1) as Hg1.
    case_bool_decide.
    + destruct (reader_rows_from parse_reset lines) as [rs e] eqn:Hr.
      intros [= <- <-]. constructor; [apply Hg1|].
      eapply IH; [apply good_reader_reset | done | exact Hr].
    + by apply IH.
Qed.

Lemma Reader_iternext_from_rest (P : string -> Prop) lines : forall self r rest,
  Forall P lines ->
  Reader_iternext_from self lines = Ok (r, rest) ->
  Forall P rest.
Proof.
  induction lines as [|l lines IH]; intros self r rest Hl; simpl.
  - destruct (pending self); by intros [= <- <-].
  - apply Forall_cons in Hl as [_ Hl]. unfold mbind, result_bind.
    destruct (process_line self l) as [s1|e]; [|done].
    case_bool_decide; [by intros [= <- <-] | by apply IH].
Qed.

Lemma no_cr_splitlines s :
  no_cr s = true -> Forall (fun l => no_cr l = true) (splitlines s).
Proof.
  induction s as [|c s IH]; intros H; [constructor|].
  simpl in H. apply andb_prop in H as [Hc Hs]. simpl.
  destruct (Ascii.eqb_spec c LF) as [->|Hl].
  - constructor; [done | by apply IH].
  - specialize (IH Hs). destruct (splitlines s) as [|l ls]; simpl.
    + constructor; [|constructor]. simpl. by rewrite Hc.
    + apply Forall_cons in IH as [Hl' Hls]. constructor; [|done].
      simpl. by rewrite Hc, Hl'.
Qed.

Lemma no_cr_open_text content :
  Forall (fun l => no_cr l = true) (open_text content).
Proof. apply no_cr_splitlines, no_cr_translate. Qed.

(** ** The extractor in closed form *)

Lemma result_bind_ok {A B} (a : A) (f : A -> result B) : (Ok a ≫= f) = f a.
Proof. reflexivity. Qed.

Lemma result_bind_raise {A B} e (f : A -> result B) : (Raise e ≫= f) = Raise e.
Proof. reflexivity. Qed.

Lemma skip_header_step_run lines w :
  skip_header_step lines w = (w, skip_record lines).
Proof.
  unfold skip_header_step, skip_record, reader_next, mbind, io_bind.
  by destruct (Reader_iternext lines) as [[r rest]|e].
Qed.

Lemma create_mapping_file_run source mapping w sc :
  source <> mapping ->
  files w !! source = Some sc ->
  create_mapping_file source mapping w =
    match skip_headers (open_text sc) with
    | Raise e => (set_file mapping EmptyString w, Raise e)
    | Ok rest =>
        match reader_rows rest with
        | (rows, Some e) =>
            (set_file mapping (writerows (extracted rows)) w, Raise e)
        | (rows, None) =>
            (say (create_messages mapping (length (extracted rows)))
               (set_file mapping (writerows (extracted rows)) w), Ok tt)
        end
    end.
Proof.
  intros Hne Hs. unfold create_mapping_file.
  erewrite bind_ok by (by eapply open_r_found).
  erewrite bind_ok by (by (apply (eq_refl : open_w mapping w =
                             (set_file mapping EmptyString w, Ok mapping)))).
  assert (Hs0 : files (set_file mapping EmptyString w) !! source = Some sc).
  { unfold set_file. simpl. by rewrite lookup_insert_ne. }
  erewrite bind_ok by (by eapply read_lines_run).
  unfold skip_headers.
  destruct (skip_record (open_text sc)) as [l1|e] eqn:H1.
  2: { rewrite result_bind_raise.
       by erewrite bind_raise by (rewrite skip_header_step_run, H1; done). }
  rewrite result_bind_ok.
  erewrite bind_ok by (rewrite skip_header_step_run, H1; done).
  destruct (skip_record l1) as [l2|e] eqn:H2.
  2: { rewrite result_bind_raise.
       by erewrite bind_raise by (rewrite skip_header_step_run, H2; done). }
  rewrite result_bind_ok.
  erewrite bind_ok by (rewrite skip_header_step_run, H2; done).
  destruct (skip_record l2) as [rest|e] eqn:H3.
  2: { by erewrite bind_raise by (rewrite skip_header_step_run, H3; done). }
  erewrite bind_ok by (rewrite skip_header_step_run, H3; done).
  destruct (reader_rows rest) as [rows err] eqn:Hr.
  pose proof (for_each_create_body mapping rows 0 EmptyString
                (set_file mapping EmptyString w) (set_file_lookup _ _ _)) as Hb.
  rewrite set_file_set_file, append_nil_l in Hb. simpl in Hb.
  pose proof (for_row_in_reader_run rest (create_body mapping) 0 _ rows err
                _ _ Hr Hb) as Hl.
  destruct err as [e|].
  - by erewrite bind_raise by exact Hl.
  - erewrite bind_ok by exact Hl.
    repeat (erewrite bind_ok by apply print_run).
    rewrite print_run. by rewrite !say_say.
Qed.

Lemma create_mapping_file_inv source mapping w w1 :
  source <> mapping ->
  create_mapping_file source mapping w = (w1, Ok tt) ->
  exists sc rest rows,
    files w !! source = Some sc
    /\ skip_headers (open_text sc) = Ok rest
    /\ reader_rows rest = (rows, None)
    /\ w1 = say (create_messages mapping (length (extracted rows)))
              (set_file mapping (writerows (extracted rows)) w).
Proof.
  intros Hne. destruct (files w !! source) as [sc|] eqn:Hs.
  - rewrite (create_mapping_file_run source mapping w sc Hne Hs).
    destruct (skip_headers (open_text sc)) as [rest|e] eqn:Hk; [|done].
    destruct (reader_rows rest) as [rows [e|]] eqn:Hr; [done|].
    intros [= <-]. by exists sc, rest, rows.
  - unfold create_mapping_file.
    by erewrite bind_raise by (by apply open_r_missing).
Qed.

(** ** Extract, then merge the unedited mapping *)

Lemma skip_record_line l rest :
  line_is_record l = true -> skip_record (l :: rest) = Ok rest.
Proof.
  intros H. destruct (Reader_iternext_record_line l rest H) as [r Hr].
  unfold skip_record. by rewrite Hr.
Qed.

Lemma skip_headers_record_lines lines :
  forallb line_is_record (take 3 lines) = true ->
  skip_headers lines = Ok (drop 3 lines).
Proof.
  intros H. unfold skip_headers.
  destruct lines as [|l1 lines]; [done|].
  simpl in H. apply andb_prop in H as [H1 H].
  rewrite (skip_record_line l1 lines H1), result_bind_ok.
  destruct lines as [|l2 lines]; [done|].
  simpl in H. apply andb_prop in H as [H2 H].
  rewrite (skip_record_line l2 lines H2), result_bind_ok.
  destruct lines as [|l3 lines]; [done|].
  simpl in H. apply andb_prop in H as [H3 _].
  by rewrite (skip_record_line l3 lines H3).
Qed.

Lemma skip_record_rest (P : string -> Prop) lines rest :
  Forall P lines -> skip_record lines = Ok rest -> Forall P rest.
Proof.
  intros Hl. unfold skip_record, Reader_iternext.
  destruct (Reader_iternext_from parse_reset lines) as [[r rest']|e] eqn:Hn;
    [|done].
  intros [= <-]. by eapply Reader_iternext_from_rest.
Qed.

Lemma skip_headers_rest (P : string -> Prop) lines rest :
  Forall P lines -> skip_headers lines = Ok rest -> Forall P rest.
Proof.
  intros Hl. unfold skip_headers.
  destruct (skip_record lines) as [l1|e] eqn:H1; [|done].
  rewrite result_bind_ok.
  destruct (skip_record l1) as [l2|e] eqn:H2; [|done].
  rewrite result_bind_ok. intros H3.
  eauto using skip_record_rest.
Qed.

Lemma extracted_good rows :
  Forall (Forall good_field) rows ->
  Forall (fun r => r <> [] /\ Forall good_field r) (extracted rows).
Proof.
  induction rows as [|r rows IH]; intros H; [constructor|].
  apply Forall_cons in H as [Hr Hrows].
  destruct (decide (length r < 3)) as [Hs|Hl].
  - rewrite extracted_cons_short by done. by apply IH.
  - destruct r as [|k [|o [|f more]]]; simpl in Hl; try lia.
    rewrite extracted_cons_long. constructor; [|by apply IH].
    split; [done|].
    apply Forall_cons in Hr as [Hk Hr]. apply Forall_cons in Hr as [Ho _].
    constructor; [done|]. constructor; [done|]. constructor.
Qed.

Lemma extracted_untouched K rows :
  K ∉ map key_of (retained rows) ->
  existsb (sets_key K) (extracted rows) = false.
Proof.
  induction rows as [|r rows IH]; intros H; [done|].
  destruct (decide (length r < 3)) as [Hs|Hl].
  - rewrite extracted_cons_short by done.
    rewrite retained_cons_short in H by done. by apply IH.
  - destruct r as [|k [|o [|f more]]]; simpl in Hl; try lia.
    rewrite extracted_cons_long. rewrite retained_cons_long in H.
    simpl in H. apply not_elem_of_cons in H as [Hk H].
    simpl. rewrite IH by done.
    rewrite bool_decide_eq_false_2; [done|]. by intros ->.
Qed.

Lemma index_from_unique rows : forall d r,
  NoDup (map key_of (retained rows)) ->
  r ∈ retained rows ->
  index_from d (extracted rows) !! key_of r = Some (original_of r).
Proof.
  induction rows as [|r0 rows IH]; intros d r Hnd Hin.
  - by apply elem_of_nil in Hin.
  - destruct (decide (length r0 < 3)) as [Hs|Hl].
    + rewrite extracted_cons_short by done.
      rewrite retained_cons_short in Hnd, Hin by done. by apply IH.
    + destruct r0 as [|k [|o [|f more]]]; simpl in Hl; try lia.
      rewrite extracted_cons_long. rewrite retained_cons_long in Hnd, Hin.
      simpl in Hnd. apply NoDup_cons in Hnd as [Hk Hnd].
      apply elem_of_cons in Hin as [->|Hin].
      * change (key_of (k :: o :: f :: more)) with k.
        change (original_of (k :: o :: f :: more)) with o.
        simpl. rewrite index_from_untouched by (by apply extracted_untouched).
        apply lookup_insert_eq.
      * simpl. by apply IH.
Qed.

Lemma resolved_unique rows :
  NoDup (map key_of (retained rows)) ->
  resolved (index_from ∅ (extracted rows)) rows =
    map (fun r => [key_of r; original_of r; original_of r]) (retained rows).
Proof.
  intros Hnd. rewrite resolved_retained. apply map_ext_in.
  intros r Hin. apply list_elem_of_In in Hin.
  fold (key_of r). fold (original_of r).
  by rewrite (index_from_unique rows ∅ r Hnd Hin).
Qed.

(** C3, as amended.  After the extractor has run on a source, the merger
    given the mapping file as the extractor left it loads an index that
    holds exactly the pairs written.  Every data row whose key is in that
    index is resolved to the index entry, whatever its third field.  When,
    moreover, each of the first three lines of the source is a complete
    record on its own and the keys of the rows kept are pairwise distinct,
    the merger's rows are the extractor's, and every data row is resolved to
    its own original text. *)
Theorem C3_round_trip (source mapping : string) (w w1 : world) :
  source <> mapping ->
  create_mapping_file source mapping w = (w1, Ok tt) ->
  exists sc pairs tr,
    files w !! source = Some sc
    /\ files w1 !! source = Some sc
    /\ files w1 !! mapping = Some (writerows pairs)
    /\ tr = index_from ∅ pairs
    /\ load_translations mapping w1 = (w1, Ok tr)
    /\ (forall hdr rest rows,
          transcmd.read_header (open_text sc) = (hdr, rest) ->
          reader_rows rest = (rows, None) ->
          transcmd.read_source source tr w1 =
            (w1, Ok (hdr, matched tr rows, resolved tr rows))
          /\ forall i r key original fallback text,
               retained rows !! i = Some r ->
               r !! 0 = Some key -> r !! 1 = Some original ->
               r !! 2 = Some fallback ->
               tr !! key = Some text ->
               resolved tr rows !! i = Some [key; original; text])
    /\ (forallb line_is_record (take 3 (open_text sc)) = true ->
        exists hdr rows,
          reader_rows (drop 3 (open_text sc)) = (rows, None)
          /\ pairs = extracted rows
          /\ (NoDup (map key_of (retained rows)) ->
              exists matched_count,
                transcmd.read_source source tr w1 =
                  (w1, Ok (hdr, matched_count,
                           map (fun r => [key_of r; original_of r; original_of r])
                               (retained rows))))).
Proof.
  intros Hne Hrun.
  destruct (create_mapping_file_inv source mapping w w1 Hne Hrun)
    as (sc & restE & rowsE & Hs & Hskip & HrE & ->).
  set (pairs := extracted rowsE).
  set (w1 := say _ _).
  assert (Hs1 : files w1 !! source = Some sc).
  { unfold w1, say, set_file. simpl. by rewrite lookup_insert_ne. }
  assert (Hm1 : files w1 !! mapping = Some (writerows pairs)).
  { unfold w1, say, set_file. simpl. apply lookup_insert_eq. }
  assert (Hback : reader_rows (open_text (writerows pairs)) = (pairs, None)).
  { apply reader_rows_writerows, extracted_good.
    eapply (good_reader_rows_from restE parse_reset);
      [apply good_reader_reset | | exact HrE].
    eapply skip_headers_rest; [apply no_cr_open_text | exact Hskip]. }
  exists sc, pairs, (index_from ∅ pairs).
  split; [done|]. split; [done|]. split; [done|]. split; [done|].
  split; [by eapply load_translations_ok|]. split.
  - intros hdr rest rows Hh Hr. split.
    + by eapply transcmd_read_source_ok.
    + intros i r key original fallback text Hi H0 H1 H2 Ht.
      rewrite (resolved_lookup _ rows i r key original fallback Hi H0 H1 H2).
      by rewrite Ht.
  - intros Hal.
    rewrite (skip_headers_record_lines _ Hal) in Hskip.
    injection Hskip as <-.
    destruct (transcmd.read_header (open_text sc)) as [hdr rest] eqn:Hh.
    pose proof (transcmd_read_header_rest (open_text sc)) as Hrest.
    rewrite Hh in Hrest. simpl in Hrest. subst rest.
    exists hdr, rowsE. split; [done|]. split; [done|].
    intros Hnd. eexists.
    rewrite (transcmd_read_source_ok source _ w1 sc hdr _ rowsE Hs1 Hh HrE).
    unfold pairs. by rewrite resolved_unique.
Qed.

Lemma C3_witness :
  exists sc pairs tr,
    files demo_world_lf !! "src.csv" = Some sc
    /\ files round_trip_world !! "src.csv" = Some sc
    /\ files round_trip_world !! "map.csv" = Some (writerows pairs)
    /\ tr = index_from ∅ pairs
    /\ load_translations "map.csv" round_trip_world = (round_trip_world, Ok tr)
    /\ (forall hdr rest rows,
          transcmd.read_header (open_text sc) = (hdr, rest) ->
          reader_rows rest = (rows, None) ->
          transcmd.read_source "src.csv" tr round_trip_world =
            (round_trip_world, Ok (hdr, matched tr rows, resolved tr rows))
          /\ forall i r key original fallback text,
               retained rows !! i = Some r ->
               r !! 0 = Some key -> r !! 1 = Some original ->
               r !! 2 = Some fallback ->
               tr !! key = Some text ->
               resolved tr rows !! i = Some [key; original; text])
    /\ (forallb line_is_record (take 3 (open_text sc)) = true ->
        exists hdr rows,
          reader_rows (drop 3 (open_text sc)) = (rows, None)
          /\ pairs = extracted rows
          /\ (NoDup (map key_of (retained rows)) ->
              exists matched_count,
                transcmd.read_source "src.csv" tr round_trip_world =
                  (round_trip_world,
                   Ok (hdr, matched_count,
                       map (fun r => [key_of r; original_of r; original_of r])
                           (retained rows))))).
Proof.
  apply (C3_round_trip "src.csv" "map.csv" demo_world_lf round_trip_world).
  - discriminate.
  - vm_compute. reflexivity.
Defined.

(** C3 as stated fails on [duplicate_key_source]: the extractor writes
    both pairs, the index keeps the later one, and the first row, whose
    original text equals its third field, is resolved to the original text
    of the second. *)
Lemma C3_counterexample :
  ~ (forall source mapping w w1 sc tr hdr rest rows matched_count data_rows,
       source <> mapping ->
       files w !! source = Some sc ->
       create_mapping_file source mapping w = (w1, Ok tt) ->
       load_translations mapping w1 = (w1, Ok tr) ->
       transcmd.read_header (open_text sc) = (hdr, rest) ->
       reader_rows rest = (rows, None) ->
       transcmd.read_source source tr w1 = (w1, Ok (hdr, matched_count, data_rows)) ->
       forall i r original out,
         retained rows !! i = Some r ->
         r !! 1 = Some original -> r !! 2 = Some original ->
         data_rows !! i = Some out ->
         out !! 2 = Some original).
Proof.
  intros H.
  assert (Hne : "src.csv" <> "map.csv") by discriminate.
  specialize (H "src.csv" "map.csv" duplicate_key_world
                (fst (create_mapping_file "src.csv" "map.csv" duplicate_key_world))
                duplicate_key_source
                {[ "k" := "b" ]}
                ["Language" +:+ str1 LF; str1 LF; "NormalText" +:+ str1 LF]
                ["k,a,a" +:+ str1 LF; "k,b,b" +:+ str1 LF]
                [["k"; "a"; "a"]; ["k"; "b"; "b"]]
                2 [["k"; "a"; "b"]; ["k"; "b"; "b"]]
                Hne eq_refl).
  assert (H1 : create_mapping_file "src.csv" "map.csv" duplicate_key_world =
               ((create_mapping_file "src.csv" "map.csv" duplicate_key_world).1,
                Ok tt)) by (vm_compute; reflexivity).
  specialize (H H1). clear H1.
  assert (H2 : load_translations "map.csv"
                 (create_mapping_file "src.csv" "map.csv" duplicate_key_world).1 =
               ((create_mapping_file "src.csv" "map.csv" duplicate_key_world).1,
                Ok ({[ "k" := "b" ]} : gmap string string)))
    by (vm_compute; reflexivity).
  specialize (H H2 eq_refl eq_refl). clear H2.
  assert (H3 : transcmd.read_source "src.csv" {[ "k" := "b" ]}
                 (create_mapping_file "src.csv" "map.csv" duplicate_key_world).1 =
               ((create_mapping_file "src.csv" "map.csv" duplicate_key_world).1,
                Ok (["Language" +:+ str1 LF; str1 LF; "NormalText" +:+ str1 LF],
                    2, [["k"; "a"; "b"]; ["k"; "b"; "b"]])))
    by (vm_compute; reflexivity).
  specialize (H H3 0 ["k"; "a"; "a"] "a" ["k"; "a"; "b"]
                eq_refl eq_refl eq_refl eq_refl).
  discriminate H.
Qed.

(** ** The header of a source without carriage returns *)

Lemma universal_newlines_no_cr s : no_cr s = true -> universal_newlines s = s.
Proof.
  intros H. unfold universal_newlines.
  rewrite <- (append_nil_r s) at 1.
  rewrite translate_no_cr_append by done. apply append_nil_r.
Qed.

Lemma join_lines_splitlines s : join_lines (splitlines s) = s.
Proof.
  induction s as [|c s IH]; [done|]. simpl.
  destruct (Ascii.eqb_spec c LF) as [->|Hc].
  - simpl. by rewrite IH.
  - rewrite <- IH at 2. by destruct (splitlines s).
Qed.

Lemma splitlines_complete_line l t :
  complete_line l = true -> splitlines (l +:+ t) = l :: splitlines t.
Proof.
  induction l as [|c l IH]; [done|]. simpl.
  destruct (Ascii.eqb_spec c LF) as [->|Hc].
  - intros H. apply String.eqb_eq in H as ->. done.
  - intros H. by rewrite IH.
Qed.

Lemma splitlines_inner_line s : forall l ls,
  splitlines s = l :: ls -> ls <> [] ->
  complete_line l = true /\ exists s', splitlines s' = ls.
Proof.
  induction s as [|c s IH]; intros l ls; [done|]. simpl.
  destruct (Ascii.eqb_spec c LF) as [->|Hc].
  - intros [= <- <-] _. split; [done | by exists s].
  - destruct (splitlines s) as [|l0 ls0] eqn:Hs; simpl.
    + by intros [= <- <-].
    + intros [= <- <-] Hne. destruct (IH l0 ls0 eq_refl Hne) as [Hl Hs'].
      split; [|done]. simpl. by rewrite (proj2 (Ascii.eqb_neq c LF)).
Qed.

Lemma splitlines_no_empty_line s : Forall (fun l => l <> EmptyString) (splitlines s).
Proof.
  induction s as [|c s IH]; [constructor|]. simpl.
  destruct (Ascii.eqb c LF); [by constructor|].
  destruct (splitlines s) as [|l ls]; simpl.
  - by repeat constructor.
  - apply Forall_cons in IH as [_ IH]. by constructor.
Qed.

Lemma transcmd_read_header_lines lines :
  Forall (fun l => l <> EmptyString) lines ->
  transcmd.read_header lines = (take 3 lines, drop 3 lines).
Proof.
  unfold transcmd.read_header, transcmd.header_step, readline.
  intros H.
  destruct lines as [|l1 [|l2 [|l3 rest]]]; simpl; try done.
  - apply Forall_cons in H as [H1 _].
    repeat case_bool_decide; done.
  - apply Forall_cons in H as [H1 H]. apply Forall_cons in H as [H2 _].
    repeat case_bool_decide; done.
  - apply Forall_cons in H as [H1 H]. apply Forall_cons in H as [H2 H].
    apply Forall_cons in H as [H3 _].
    repeat case_bool_decide; done.
Qed.

Lemma take3_header_then_rows s x :
  (drop 3 (splitlines s) = [] -> x = EmptyString) ->
  take 3 (splitlines (join_lines (take 3 (splitlines s)) +:+ x)) =
    take 3 (splitlines s).
Proof.
  intros Hx. pose proof (join_lines_splitlines s) as Hj.
  destruct (splitlines s) as [|l1 [|l2 [|l3 [|l4 rest]]]] eqn:Hs.
  1-4: rewrite (Hx eq_refl), append_nil_r;
       match goal with
       | |- context [join_lines (take 3 ?L)] =>
           rewrite (take_ge L 3) by (simpl; lia)
       end; by rewrite Hj, Hs.
  destruct (splitlines_inner_line s _ _ Hs) as [H1 [s1 Hs1]]; [done|].
  destruct (splitlines_inner_line s1 _ _ Hs1) as [H2 [s2 Hs2]]; [done|].
  destruct (splitlines_inner_line s2 _ _ Hs2) as [H3 _]; [done|].
  simpl take. simpl join_lines. rewrite append_nil_r, !append_assoc.
  by rewrite !splitlines_complete_line.
Qed.

(** On a source without carriage returns the merger of [transcmd.py] does
    copy the header: the first three lines of the output are the first
    three lines of the source. *)
Lemma header_copied_without_cr s m o w w' sc :
  files w !! s = Some sc ->
  no_cr sc = true ->
  transcmd.build_translation_file s m o w = (w', Ok tt) ->
  exists out,
    files w' !! o = Some out
    /\ take 3 (splitlines out) = take 3 (splitlines sc).
Proof.
  intros Hs Hcr Hrun.
  pose proof (transcmd_build_outcome s m o w) as Ho. rewrite Hrun in Ho.
  inversion Ho as [mc mrows sc' hdr rest rows w'' Hm Hmr Hs' Hh Hr Hf|];
    subst.
  rewrite Hs in Hs'. injection Hs' as <-.
  unfold open_text in Hh. rewrite universal_newlines_no_cr in Hh by done.
  rewrite transcmd_read_header_lines in Hh by apply splitlines_no_empty_line.
  injection Hh as <- <-.
  eexists. split; [rewrite Hf; apply lookup_insert_eq|].
  apply take3_header_then_rows. intros Hd. rewrite Hd in Hr.
  injection Hr as <-. done.
Qed.

(** ** The field limit can be hit *)

Lemma ordinary_inv c :
  ordinary c = true ->
  is_newline c = false /\ Ascii.eqb c COMMA = false /\ Ascii.eqb c DQUOTE = false.
Proof.
  unfold ordinary. intros H.
  apply andb_prop in H as [H Hq]. apply andb_prop in H as [Hn Hc].
  by repeat split; apply negb_true_iff.
Qed.

Lemma process_line_long_field s : forall self,
  state self = IN_FIELD ->
  fits (field self) ->
  all_ordinary s = true ->
  (field_limit < N.of_nat (String.length (field self) + String.length s))%N ->
  process_line self s = Raise (csv_Error FieldLimit).
Proof.
  induction s as [|c s IH]; intros self Hst Hfit Hord Hlen.
  - unfold fits in Hfit. simpl in Hlen. lia.
  - simpl in Hord. apply andb_prop in Hord as [Hc Hs].
    destruct (ordinary_inv c Hc) as (Hn & Hcomma & Hq).
    simpl. unfold parse_process_char. rewrite Hst, Hn, Hcomma.
    unfold parse_add_char.
    destruct (N.leb_spec field_limit (N.of_nat (String.length (field self))))
      as [Hfull|Hroom]; [done|].
    rewrite result_bind_ok. apply IH; simpl; try done.
    + unfold fits. rewrite length_append. simpl. lia.
    + rewrite length_append. simpl in *. lia.
Qed.

Lemma reader_rows_long_line s rest :
  all_ordinary s = true ->
  (field_limit < N.of_nat (String.length s))%N ->
  reader_rows (s :: rest) = ([], Some (csv_Error FieldLimit)).
Proof.
  intros Hord Hlen. unfold reader_rows. simpl.
  destruct s as [|c s]; [simpl in Hlen; unfold field_limit in Hlen; lia|].
  simpl in Hord. apply andb_prop in Hord as [Hc Hs].
  destruct (ordinary_inv c Hc) as (Hn & Hcomma & Hq).
  simpl process_line. unfold parse_process_char at 1. simpl state.
  rewrite Hn. unfold process_START_FIELD. rewrite Hn, Hq, Hcomma.
  unfold parse_add_char. simpl.
  by rewrite process_line_long_field.
Qed.

Lemma all_ordinary_no_cr s : all_ordinary s = true -> no_cr s = true.
Proof.
  induction s as [|c s IH]; [done|]. simpl. intros H.
  apply andb_prop in H as [Hc Hs]. rewrite IH by done.
  destruct (ordinary_inv c Hc) as (Hn & _ & _).
  unfold is_newline in Hn. apply orb_false_iff in Hn as [_ Hn].
  by rewrite Hn.
Qed.

Lemma splitlines_one_line c s :
  all_ordinary (String c s) = true -> splitlines (String c s) = [String c s].
Proof.
  revert c. induction s as [|c' s IH]; intros c H.
  - simpl in *. apply andb_prop in H as [Hc _].
    destruct (ordinary_inv c Hc) as (Hn & _ & _).
    unfold is_newline in Hn. apply orb_false_iff in Hn as [Hn _].
    by rewrite Hn.
  - simpl in H. apply andb_prop in H as [Hc H].
    destruct (ordinary_inv c Hc) as (Hn & _ & _).
    unfold is_newline in Hn. apply orb_false_iff in Hn as [Hn _].
    change (splitlines (String c (String c' s))) with
      (if Ascii.eqb c LF then str1 LF :: splitlines (String c' s)
       else cons_char c (splitlines (String c' s))).
    rewrite Hn, IH by done. done.
Qed.


(** ** The round trip needs header lines that are records *)

(** Distinct keys are not enough for the second half of C3: here the third
    header line opens a quote, the extractor's third header record runs to
    the fifth line, and the one row the merger keeps is resolved to the text
    the extractor took from the sixth. *)
Example round_trip_open_quote_in_header :
  let w := mkWorld {[ "src.csv" :=
             "h1" +:+ str1 LF +:+ "h2" +:+ str1 LF
             +:+ str1 DQUOTE +:+ "h" +:+ str1 LF
             +:+ "k,o,o" +:+ str1 LF
             +:+ str1 DQUOTE +:+ ",x" +:+ str1 LF
             +:+ "k,z,z" +:+ str1 LF ]} [] in
  let w1 := (create_mapping_file "src.csv" "map.csv" w).1 in
  files w1 !! "map.csv" = Some (writerows [["k"; "z"]])
  /\ load_translations "map.csv" w1 = (w1, Ok {[ "k" := "z" ]})
  /\ transcmd.read_source "src.csv" {[ "k" := "z" ]} w1 =
       (w1, Ok (["h1" +:+ str1 LF; "h2" +:+ str1 LF;
                 str1 DQUOTE +:+ "h" +:+ str1 LF],
                1, [["k"; "o"; "z"]])).
Proof. vm_compute. repeat split; reflexivity. Qed.

(** * Further properties of the two programs *)

(** ** The extractor *)

Lemma extracted_pairs rows :
  extracted rows = map (fun r => [key_of r; original_of r]) (retained rows).
Proof. apply extracted_retained. Qed.

(** X1. A run of the extractor that reads its source to the end leaves in
    the mapping file, and nowhere else, one quoted pair (key, original text)
    for each record after the three header records that has at least three
    fields, in the order of the source, and reports their number. *)
Theorem X1_extractor_writes_pairs (source mapping : string) (w : world)
    (sc : string) (rest : textfile) (rows : list row) :
  source <> mapping ->
  files w !! source = Some sc ->
  skip_headers (open_text sc) = Ok rest ->
  reader_rows rest = (rows, None) ->
  create_mapping_file source mapping w =
    (mkWorld
       (<[mapping := writerows (map (fun r => [key_of r; original_of r])
                                    (retained rows))]> (files w))
       (console w ++
        [MsgCreatedMapping mapping; MsgExtracted (length (retained rows));
         MsgNextStep mapping; MsgChangeFrom; MsgChangeTo]),
     Ok tt).
Proof.
  intros Hne Hs Hskip Hr.
  rewrite (create_mapping_file_run source mapping w sc Hne Hs), Hskip, Hr.
  by rewrite extracted_pairs, length_map.
Qed.

Lemma X1_witness :
  create_mapping_file "src.csv" "map.csv" demo_world_lf =
    (mkWorld
       (<["map.csv" := writerows (map (fun r => [key_of r; original_of r])
                                    (retained [["k1"; "hello"; "salut"];
                                               ["k2"; "short"];
                                               ["k3"; "bye"; "adieu"; "extra"]]))]>
          (files demo_world_lf))
       (console demo_world_lf ++
        [MsgCreatedMapping "map.csv";
         MsgExtracted (length (retained [["k1"; "hello"; "salut"];
                                         ["k2"; "short"];
                                         ["k3"; "bye"; "adieu"; "extra"]]));
         MsgNextStep "map.csv"; MsgChangeFrom; MsgChangeTo]),
     Ok tt).
Proof.
  apply (X1_extractor_writes_pairs "src.csv" "map.csv" demo_world_lf demo_source
           ["k1,hello,salut" +:+ str1 LF; "k2,short" +:+ str1 LF;
            "k3,bye,adieu,extra" +:+ str1 LF]);
    [discriminate | reflexivity..].
Defined.

Lemma create_mapping_file_onto_source p w :
  is_Some (files w !! p) ->
  create_mapping_file p p w =
    (say (create_messages p 0) (set_file p EmptyString w), Ok tt).
Proof.
  intros [c Hc]. unfold create_mapping_file.
  erewrite bind_ok by (by eapply open_r_found).
  erewrite bind_ok by (by (apply (eq_refl : open_w p w =
                             (set_file p EmptyString w, Ok p)))).
  erewrite bind_ok by (eapply read_lines_run, set_file_lookup).
  change (open_text EmptyString) with (@nil string).
  do 3 (erewrite bind_ok by (rewrite skip_header_step_run; reflexivity)).
  erewrite bind_ok by reflexivity.
  repeat (erewrite bind_ok by apply print_run).
  rewrite print_run. by rewrite !say_say.
Qed.

(** X2. The extractor opens its output for writing before it reads a line
    of the source: told to write the mapping onto the source itself, it
    leaves that file empty and reports no entry. *)
Theorem X2_extractor_onto_its_source (p : string) (w : world) :
  is_Some (files w !! p) ->
  create_mapping_file p p w =
    (mkWorld (<[p := EmptyString]> (files w))
       (console w ++
        [MsgCreatedMapping p; MsgExtracted 0; MsgNextStep p;
         MsgChangeFrom; MsgChangeTo]),
     Ok tt).
Proof. apply create_mapping_file_onto_source. Qed.

Lemma X2_witness :
  create_mapping_file "src.csv" "src.csv" demo_world_lf =
    (mkWorld (<["src.csv" := EmptyString]> (files demo_world_lf))
       (console demo_world_lf ++
        [MsgCreatedMapping "src.csv"; MsgExtracted 0; MsgNextStep "src.csv";
         MsgChangeFrom; MsgChangeTo]),
     Ok tt).
Proof.
  apply (X2_extractor_onto_its_source "src.csv" demo_world_lf).
  vm_compute. eexists. reflexivity.
Defined.

Lemma create_mapping_file_missing source mapping w :
  files w !! source = None ->
  create_mapping_file source mapping w = (w, Raise (FileNotFoundError source)).
Proof.
  intros Hs. unfold create_mapping_file.
  by erewrite bind_raise by (by apply open_r_missing).
Qed.

Lemma path_exists_missing p w :
  files w !! p = None -> path_exists p w = (w, Ok false).
Proof.
  intros H. rewrite path_exists_run. rewrite bool_decide_eq_false_2; [done|].
  rewrite H. by intros [? ?].
Qed.


(** X3. A source path that names no file stops the create command before
    anything is written: the function raises on opening the source, with the
    mapping file neither created nor truncated, and [main] of either program
    only prints that the source was not found. *)
Theorem X3_create_without_source (source mapping prog cmd : string)
    (more : list string) (w : world) :
  files w !! source = None ->
  translations.lower cmd = "create" ->
  create_mapping_file source mapping w = (w, Raise (FileNotFoundError source))
  /\ transcmd.main (transcmd.Create source mapping) w =
       (mkWorld (files w) (console w ++ [MsgSourceNotFound source]), Ok tt)
  /\ translations.main (prog :: cmd :: source :: more) w =
       (mkWorld (files w) (console w ++ [MsgSourceNotFound source]), Ok tt).
Proof.
  intros Hs Hcmd. split; [by apply create_mapping_file_missing|]. split.
  - unfold transcmd.main.
    by erewrite bind_ok by (by apply path_exists_missing).
  - unfold translations.main.
    rewrite bool_decide_eq_false_2 by (simpl; lia).
    io_simpl. rewrite Hcmd. simpl. rewrite !ret_bind.
    assert (Hmap : exists mp,
      (if bool_decide (3 < S (S (S (length more))))
       then getitem (prog :: cmd :: source :: more) 3
       else (mret "translations_to_edit.csv" : io string)) w = (w, Ok mp)).
    { case_bool_decide; [|by eexists].
      destruct more as [|x more]; simpl in *; [lia | by eexists]. }
    destruct Hmap as [mp Hmap]. erewrite bind_ok by exact Hmap.
    by erewrite bind_ok by (by apply path_exists_missing).
Qed.

Lemma X3_witness :
  create_mapping_file "gone.csv" "map.csv" demo_world =
    (demo_world, Raise (FileNotFoundError "gone.csv"))
  /\ transcmd.main (transcmd.Create "gone.csv" "map.csv") demo_world =
       (mkWorld (files demo_world)
          (console demo_world ++ [MsgSourceNotFound "gone.csv"]), Ok tt)
  /\ translations.main ["translations.py"; "CREATE"; "gone.csv"] demo_world =
       (mkWorld (files demo_world)
          (console demo_world ++ [MsgSourceNotFound "gone.csv"]), Ok tt).
Proof.
  apply (X3_create_without_source "gone.csv" "map.csv" "translations.py"
           "CREATE" [] demo_world);
    reflexivity.
Defined.

(** ** What a run may write *)





(** ** The merger's loop: fallbacks, widths and counts *)

Lemma is_match_short tr r : length r < 3 -> is_match tr r = false.
Proof. destruct r as [|? [|? [|? ?]]]; simpl; intros; try done; lia. Qed.

Lemma matched_retained tr rows :
  matched tr rows =
    length (filter (fun r => is_Some (tr !! key_of r)) (retained rows)).
Proof.
  unfold matched. induction rows as [|r rows IH]; [done|].
  destruct (decide (length r < 3)) as [Hs|Hl].
  - rewrite retained_cons_short by done.
    rewrite filter_cons_False; [done|]. by rewrite is_match_short.
  - destruct r as [|k [|o [|f more]]]; simpl in Hl; try lia.
    rewrite retained_cons_long, !filter_cons.
    change (key_of (k :: o :: f :: more)) with k.
    change (is_match tr (k :: o :: f :: more)) with (dict_contains tr k).
    unfold dict_contains.
    destruct (decide (is_Some (tr !! k))) as [Hk|Hk].
    + rewrite bool_decide_eq_true_2 by done.
      rewrite decide_True by done. simpl. by rewrite IH.
    + rewrite bool_decide_eq_false_2 by done.
      rewrite decide_False by done. done.
Qed.

Lemma resolved_unmatched tr rows :
  (forall r, r ∈ retained rows -> tr !! key_of r = None) ->
  resolved tr rows = map (take 3) (retained rows).
Proof.
  intros H. rewrite resolved_retained. apply map_ext_in.
  intros r Hin. apply list_elem_of_In in Hin.
  fold (key_of r). rewrite (H r Hin). simpl.
  apply list_elem_of_filter in Hin as [Hlen _].
  destruct r as [|k [|o [|f more]]]; simpl in Hlen; try lia.
  done.
Qed.

Lemma matched_unmatched tr rows :
  (forall r, r ∈ retained rows -> tr !! key_of r = None) ->
  matched tr rows = 0.
Proof.
  intros H. rewrite matched_retained.
  induction (retained rows) as [|r l IH]; [done|].
  rewrite filter_cons_False.
  - apply IH. intros r' Hr'. apply H. by right.
  - rewrite (H r) by left. by intros [? ?].
Qed.

(** X5. When no record kept from the source has its key in the index (an
    empty mapping file, for one), the merger's loop counts no match and
    appends every such record cut down to its first three fields: key,
    original text and the translation the source already had. *)
Theorem X5_unmapped_rows_keep_their_translation (tr : gmap string string)
    (lines : textfile) (rows : list row) (m0 : nat) (d0 : list row)
    (w : world) :
  reader_rows lines = (rows, None) ->
  (forall r, r ∈ retained rows -> tr !! key_of r = None) ->
  for_row_in_reader lines (build_body tr) (m0, d0) w =
    (w, Ok (m0, d0 ++ map (take 3) (retained rows))).
Proof.
  intros Hr Hnone.
  rewrite (for_row_in_reader_run lines (build_body tr) (m0, d0) w rows None
             w _ Hr (for_each_build_body tr rows m0 d0 w)).
  by rewrite matched_unmatched, resolved_unmatched, Nat.add_0_r.
Qed.

Lemma X5_witness :
  for_row_in_reader
    ["k1,hello,salut" +:+ str1 LF; "k2,short" +:+ str1 LF;
     "k3,bye,adieu,extra" +:+ str1 LF]
    (build_body ∅) (0, []) demo_world =
    (demo_world,
     Ok (0, [] ++ map (take 3)
                    (retained [["k1"; "hello"; "salut"]; ["k2"; "short"];
                               ["k3"; "bye"; "adieu"; "extra"]]))).
Proof.
  apply (X5_unmapped_rows_keep_their_translation ∅
           ["k1,hello,salut" +:+ str1 LF; "k2,short" +:+ str1 LF;
            "k3,bye,adieu,extra" +:+ str1 LF]
           [["k1"; "hello"; "salut"]; ["k2"; "short"];
            ["k3"; "bye"; "adieu"; "extra"]] 0 [] demo_world).
  - reflexivity.
  - intros r _. reflexivity.
Defined.

(** X6. Whatever the width of the records read, every row the merger's
    loop appends has exactly three fields and every row the extractor's loop
    writes has exactly two: fields after the third are dropped, and neither
    loop raises. *)
Theorem X6_rows_have_fixed_width (rows : list row) (tr : gmap string string)
    (fout c : string) (w : world) :
  files w !! fout = Some c ->
  exists matched_count data_rows pairs,
    for_each rows (build_body tr) (0, []) w = (w, Ok (matched_count, data_rows))
    /\ Forall (fun r => length r = 3) data_rows
    /\ for_each rows (create_body fout) 0 w =
         (mkWorld (<[fout := c +:+ writerows pairs]> (files w)) (console w),
          Ok (length pairs))
    /\ Forall (fun r => length r = 2) pairs.
Proof.
  intros Hc. exists (matched tr rows), (resolved tr rows), (extracted rows).
  split; [|split; [|split]].
  - by rewrite for_each_build_body.
  - rewrite resolved_retained. apply Forall_fmap, Forall_forall. done.
  - by rewrite (for_each_create_body fout rows 0 c w Hc).
  - rewrite extracted_retained. apply Forall_fmap, Forall_forall. done.
Qed.

Lemma X6_witness :
  exists matched_count data_rows pairs,
    for_each [["k1"; "hello"; "salut"]; ["k2"; "short"];
              ["k3"; "bye"; "adieu"; "extra"]]
      (build_body {[ "k3" := "farewell" ]}) (0, [])
      (mkWorld {[ "map.csv" := EmptyString ]} []) =
      (mkWorld {[ "map.csv" := EmptyString ]} [], Ok (matched_count, data_rows))
    /\ Forall (fun r => length r = 3) data_rows
    /\ for_each [["k1"; "hello"; "salut"]; ["k2"; "short"];
                 ["k3"; "bye"; "adieu"; "extra"]]
         (create_body "map.csv") 0 (mkWorld {[ "map.csv" := EmptyString ]} []) =
         (mkWorld (<["map.csv" := EmptyString +:+ writerows pairs]>
                     (files (mkWorld {[ "map.csv" := EmptyString ]} [])))
            (console (mkWorld {[ "map.csv" := EmptyString ]} [])),
          Ok (length pairs))
    /\ Forall (fun r => length r = 2) pairs.
Proof.
  apply (X6_rows_have_fixed_width
           [["k1"; "hello"; "salut"]; ["k2"; "short"];
            ["k3"; "bye"; "adieu"; "extra"]]
           {[ "k3" := "farewell" ]} "map.csv" EmptyString
           (mkWorld {[ "map.csv" := EmptyString ]} [])).
  reflexivity.
Defined.

(** X7. What the merger of [transcmd.py] reports after a run that reads
    both inputs to the end: the number of entries of the index, then, as
    updated, the number of rows written whose key is in the index (rows, not
    keys: a key that occurs twice in the source counts twice), and, as total,
    the number of rows written; the first never exceeds the second. *)
Theorem X7_merger_report (s m o : string) (w : world) (mc sc : string)
    (mrows rows : list row) (hdr : list string) (rest : textfile) :
  files w !! m = Some mc ->
  reader_rows (open_text mc) = (mrows, None) ->
  files w !! s = Some sc ->
  transcmd.read_header (open_text sc) = (hdr, rest) ->
  reader_rows rest = (rows, None) ->
  exists w' tr updated total,
    load_translations m w = (w, Ok tr)
    /\ transcmd.build_translation_file s m o w = (w', Ok tt)
    /\ console w' =
         console w ++
         [MsgLoaded (size tr) m; MsgCreatedTranslation o; MsgPreservedRaw;
          MsgUpdated updated; MsgTotalDataRows total]
    /\ updated =
         length (filter (fun r => is_Some (tr !! key_of r)) (retained rows))
    /\ total = length (retained rows)
    /\ updated <= total.
Proof.
  intros Hm Hmr Hs Hh Hr.
  eexists _, (index_from ∅ mrows), _, _.
  split; [by eapply load_translations_ok|].
  split; [by eapply transcmd_build_run|].
  split; [reflexivity|].
  split; [apply matched_retained|].
  split; [apply resolved_length|].
  rewrite matched_retained, resolved_length. apply length_filter.
Qed.

Lemma X7_witness :
  exists w' tr updated total,
    load_translations "map.csv" demo_world = (demo_world, Ok tr)
    /\ transcmd.build_translation_file "src.csv" "map.csv" "out.csv" demo_world =
         (w', Ok tt)
    /\ console w' =
         console demo_world ++
         [MsgLoaded (size tr) "map.csv"; MsgCreatedTranslation "out.csv";
          MsgPreservedRaw; MsgUpdated updated; MsgTotalDataRows total]
    /\ updated =
         length (filter (fun r => is_Some (tr !! key_of r))
                   (retained [["k1"; "hello"; "salut"]; ["k2"; "short"];
                              ["k3"; "bye"; "adieu"; "extra"]]))
    /\ total = length (retained [["k1"; "hello"; "salut"]; ["k2"; "short"];
                                 ["k3"; "bye"; "adieu"; "extra"]])
    /\ updated <= total.
Proof.
  apply (X7_merger_report "src.csv" "map.csv" "out.csv" demo_world
           demo_mapping demo_source [["k3"; "farewell"]; ["lonely"]]
           [["k1"; "hello"; "salut"]; ["k2"; "short"];
            ["k3"; "bye"; "adieu"; "extra"]]
           ["Language" +:+ str1 LF; str1 LF; "NormalText" +:+ str1 LF]
           ["k1,hello,salut" +:+ str1 LF; "k2,short" +:+ str1 LF;
            "k3,bye,adieu,extra" +:+ str1 LF]);
    reflexivity.
Defined.

(** ** The index and the mapping file *)

Lemma index_from_cons d r rows :
  index_from d (r :: rows) = index_from (index_step d r) rows.
Proof. reflexivity. Qed.

Lemma index_from_is_Some K rows : forall d,
  is_Some (index_from d rows !! K) <->
  is_Some (d !! K) \/ existsb (sets_key K) rows = true.
Proof.
  induction rows as [|r rows IH]; intros d.
  - simpl. split; [by left | by intros [?|?]].
  - rewrite index_from_cons, IH. simpl existsb. rewrite orb_true_iff.
    destruct r as [|k [|t more]]; simpl; try (split; intros [?|?]; auto;
      destruct H as [?|?]; auto; done).
    rewrite lookup_insert_is_Some. case_bool_decide as Hk.
    + subst k. split; [intros [[?|[? ?]]|?]; auto | intros [?|[?|?]]; auto].
    + split; [intros [[?|[? ?]]|?]; auto; done
             | intros [?|[?|?]]; auto; done].
Qed.

Lemma index_from_size rows : forall d,
  size (index_from d rows) <=
    size d + length (filter (fun r => 2 <= length r) rows).
Proof.
  induction rows as [|r rows IH]; intros d; [simpl; lia|].
  rewrite index_from_cons. etrans; [apply IH|].
  destruct r as [|k [|t more]].
  - rewrite filter_cons_False by (simpl; lia). done.
  - rewrite filter_cons_False by (simpl; lia). done.
  - rewrite filter_cons_True by (simpl; lia).
    change (index_step d (k :: t :: more)) with (<[k:=t]> d).
    rewrite map_size_insert, length_cons. destruct (d !! k); unfold id; lia.
Qed.

Lemma index_from_origin K text rows : forall d,
  index_from d rows !! K = Some text ->
  d !! K = Some text
  \/ exists r, r ∈ rows /\ r !! 0 = Some K /\ r !! 1 = Some text.
Proof.
  induction rows as [|r rows IH]; intros d H; [by left|].
  rewrite index_from_cons in H. destruct (IH _ H) as [Hd|(r' & Hin & H0 & H1)].
  - destruct r as [|k [|t more]]; simpl in Hd; auto.
    destruct (decide (k = K)) as [->|Hne].
    + rewrite lookup_insert_eq in Hd. injection Hd as ->.
      right. eexists. split; [left|]. done.
    + rewrite lookup_insert_ne in Hd by done. by left.
  - right. exists r'. split; [by right | done].
Qed.

(** X8. The index the merger loads has an entry for a key exactly when
    some record of the mapping file with at least two fields has that key as
    its first field; every entry is the second field of such a record; and
    the index has at most as many entries as there are such records (fewer
    when keys repeat).  Records with fewer than two fields add nothing, and
    loading never raises. *)
Theorem X8_index_of_the_mapping_file (lines : textfile) (rows : list row)
    (w : world) :
  reader_rows lines = (rows, None) ->
  exists tr,
    for_row_in_reader lines load_body ∅ w = (w, Ok tr)
    /\ (forall K, is_Some (tr !! K) <-> existsb (sets_key K) rows = true)
    /\ (forall K text,
          tr !! K = Some text ->
          exists r, r ∈ rows /\ r !! 0 = Some K /\ r !! 1 = Some text)
    /\ size tr <= length (filter (fun r => 2 <= length r) rows).
Proof.
  intros Hr. exists (index_from ∅ rows). split; [|split; [|split]].
  - by rewrite (for_row_in_reader_run lines load_body ∅ w rows None
               w _ Hr (for_each_load_body rows ∅ w)).
  - intros K. rewrite index_from_is_Some, lookup_empty.
    split; [intros [[? ?]|?]; done | by right].
  - intros K text H. destruct (index_from_origin K text rows ∅ H) as [H'|H'];
      [by rewrite lookup_empty in H' | done].
  - etrans; [apply index_from_size|]. by rewrite map_size_empty.
Qed.

Lemma X8_witness :
  exists tr,
    for_row_in_reader
      ["K,old" +:+ str1 LF; "lonely" +:+ str1 LF; "K,new,more" +:+ str1 LF]
      load_body ∅ demo_world = (demo_world, Ok tr)
    /\ (forall K, is_Some (tr !! K) <->
                  existsb (sets_key K)
                    [["K"; "old"]; ["lonely"]; ["K"; "new"; "more"]] = true)
    /\ (forall K text,
          tr !! K = Some text ->
          exists r, r ∈ [["K"; "old"]; ["lonely"]; ["K"; "new"; "more"]]
                    /\ r !! 0 = Some K /\ r !! 1 = Some text)
    /\ size tr <=
         length (filter (fun r => 2 <= length r)
                   [["K"; "old"]; ["lonely"]; ["K"; "new"; "more"]]).
Proof.
  apply (X8_index_of_the_mapping_file
           ["K,old" +:+ str1 LF; "lonely" +:+ str1 LF; "K,new,more" +:+ str1 LF]
           [["K"; "old"]; ["lonely"]; ["K"; "new"; "more"]] demo_world).
  reflexivity.
Defined.

(** ** The header the merger of [transcmd.py] writes *)

Lemma transcmd_read_header_open_text sc :
  transcmd.read_header (open_text sc) =
    (take 3 (open_text sc), drop 3 (open_text sc)).
Proof. apply transcmd_read_header_lines, splitlines_no_empty_line. Qed.

(** X9. Whatever line ends the source has, the header the merger of
    [transcmd.py] writes is the first three lines of the source as a text
    file read with universal newlines delivers them (all of them when there
    are fewer): unparsed and unquoted, with no carriage return left in them,
    and followed directly by the quoted data rows. *)
Theorem X9_header_is_the_first_three_lines (s m o : string) (w : world)
    (mc sc : string) (mrows rows : list row) :
  files w !! m = Some mc ->
  reader_rows (open_text mc) = (mrows, None) ->
  files w !! s = Some sc ->
  reader_rows (drop 3 (open_text sc)) = (rows, None) ->
  exists w' tr matched_count data_rows,
    transcmd.read_source s tr w =
      (w, Ok (take 3 (open_text sc), matched_count, data_rows))
    /\ transcmd.build_translation_file s m o w = (w', Ok tt)
    /\ files w' !! o =
         Some (join_lines (take 3 (splitlines (universal_newlines sc)))
               +:+ writerows data_rows)
    /\ Forall (fun l => no_cr l = true)
         (take 3 (splitlines (universal_newlines sc))).
Proof.
  intros Hm Hmr Hs Hr.
  pose proof (transcmd_read_header_open_text sc) as Hh.
  eexists _, (index_from ∅ mrows), _, _. split; [|split; [|split]].
  - by eapply transcmd_read_source_ok.
  - by eapply transcmd_build_run.
  - apply set_file_lookup.
  - apply Forall_take, no_cr_open_text.
Qed.

Lemma X9_witness :
  exists w' tr matched_count data_rows,
    transcmd.read_source "src.csv" tr crlf_world =
      (crlf_world, Ok (take 3 (open_text crlf_source), matched_count, data_rows))
    /\ transcmd.build_translation_file "src.csv" "map.csv" "out.csv" crlf_world =
         (w', Ok tt)
    /\ files w' !! "out.csv" =
         Some (join_lines (take 3 (splitlines (universal_newlines crlf_source)))
               +:+ writerows data_rows)
    /\ Forall (fun l => no_cr l = true)
         (take 3 (splitlines (universal_newlines crlf_source))).
Proof.
  apply (X9_header_is_the_first_three_lines "src.csv" "map.csv" "out.csv"
           crlf_world EmptyString crlf_source [] [["k1"; "hello"; "salut"]]);
    reflexivity.
Defined.

(** X10. A source of at most three lines (an empty one too) is no error
    for the merger of [transcmd.py]: the output is the whole source, with its
    line ends read as LF, and no data row is written or counted. *)
Theorem X10_source_of_header_lines_only (s m o : string) (w : world)
    (mc sc : string) (mrows : list row) :
  files w !! m = Some mc ->
  reader_rows (open_text mc) = (mrows, None) ->
  files w !! s = Some sc ->
  length (open_text sc) <= 3 ->
  exists w' n,
    transcmd.build_translation_file s m o w = (w', Ok tt)
    /\ files w' = <[o := universal_newlines sc]> (files w)
    /\ console w' =
         console w ++
         [MsgLoaded n m; MsgCreatedTranslation o; MsgPreservedRaw;
          MsgUpdated 0; MsgTotalDataRows 0].
Proof.
  intros Hm Hmr Hs Hlen.
  pose proof (transcmd_read_header_open_text sc) as Hh.
  rewrite (drop_ge _ 3) in Hh by done. rewrite (take_ge _ 3) in Hh by done.
  eexists _, _. split; [|split].
  - eapply transcmd_build_run; [done..|reflexivity].
  - simpl. rewrite append_nil_r. unfold open_text.
    by rewrite join_lines_splitlines.
  - reflexivity.
Qed.

Lemma X10_witness :
  exists w' n,
    transcmd.build_translation_file "short.csv" "map.csv" "out.csv"
      (mkWorld {[ "short.csv" := "Language" +:+ CRLF +:+ "NormalText";
                  "map.csv" := demo_mapping ]} []) = (w', Ok tt)
    /\ files w' =
         <["out.csv" := universal_newlines ("Language" +:+ CRLF +:+ "NormalText")]>
           (files (mkWorld {[ "short.csv" := "Language" +:+ CRLF +:+ "NormalText";
                              "map.csv" := demo_mapping ]} []))
    /\ console w' =
         console (mkWorld {[ "short.csv" := "Language" +:+ CRLF +:+ "NormalText";
                             "map.csv" := demo_mapping ]} []) ++
         [MsgLoaded n "map.csv"; MsgCreatedTranslation "out.csv";
          MsgPreservedRaw; MsgUpdated 0; MsgTotalDataRows 0].
Proof.
  apply (X10_source_of_header_lines_only "short.csv" "map.csv" "out.csv"
           (mkWorld {[ "short.csv" := "Language" +:+ CRLF +:+ "NormalText";
                       "map.csv" := demo_mapping ]} [])
           demo_mapping ("Language" +:+ CRLF +:+ "NormalText")
           [["k3"; "farewell"]; ["lonely"]]);
    [reflexivity | reflexivity | reflexivity | vm_compute; lia].
Defined.

(** X11. On a source without carriage returns the merger of
    [transcmd.py] copies the header exactly: whenever the run ends normally,
    the first three lines of the output file are the first three lines of
    the source file, character for character. *)
Theorem X11_header_copied_when_no_cr (s m o : string) (w w' : world)
    (sc : string) :
  files w !! s = Some sc ->
  no_cr sc = true ->
  transcmd.build_translation_file s m o w = (w', Ok tt) ->
  exists out,
    files w' !! o = Some out
    /\ take 3 (splitlines out) = take 3 (splitlines sc).
Proof. apply header_copied_without_cr. Qed.

Lemma X11_witness :
  exists out,
    files (transcmd.build_translation_file "src.csv" "map.csv" "out.csv"
             demo_world).1 !! "out.csv" = Some out
    /\ take 3 (splitlines out) = take 3 (splitlines demo_source).
Proof.
  apply (X11_header_copied_when_no_cr "src.csv" "map.csv" "out.csv" demo_world
           (transcmd.build_translation_file "src.csv" "map.csv" "out.csv"
              demo_world).1 demo_source);
    [reflexivity | reflexivity | vm_compute; reflexivity].
Defined.

(** ** What is written reads back *)

Lemma Reader_iternext_from_good lines : forall self r rest,
  good_reader self ->
  Forall (fun l => no_cr l = true) lines ->
  Reader_iternext_from self lines = Ok (Some r, rest) ->
  Forall good_field r.
Proof.
  induction lines as [|l lines IH]; intros self r rest Hg Hl; simpl.
  - destruct (pending self); [|done]. intros [= <- <-].
    by apply good_save_field.
  - apply Forall_cons in Hl as [Hl Hlines]. unfold mbind, result_bind.
    destruct (process_line self l) as [s1|e] eqn:H1; [|done].
    pose proof (good_process_line l self s1 Hg Hl H1) as Hg1.
    case_bool_decide; [intros [= <- <-]; apply Hg1 | by apply IH].
Qed.

Lemma keep_header_inv rows hc f rows' hc' f' :
  keep_header (rows, hc, f) = Ok (rows', hc', f') ->
  Forall (fun l => no_cr l = true) f ->
  Forall good_row rows ->
  hc = length rows ->
  Forall (fun l => no_cr l = true) f'
  /\ Forall good_row rows'
  /\ hc' = length rows'
  /\ length rows' <= S (length rows).
Proof.
  unfold keep_header, Reader_iternext. intros H Hf Hrows Hhc.
  destruct (Reader_iternext_from parse_reset f) as [[r rest]|e] eqn:Hn; [|done].
  pose proof (Reader_iternext_from_rest _ f parse_reset r rest Hf Hn) as Hrest.
  destruct r as [[|x r]|].
  - injection H as <- <- <-. repeat split; auto.
  - injection H as <- <- <-. repeat split; auto.
    + apply Forall_app. split; [done|]. constructor; [|constructor].
      split; [done|].
      by eapply (Reader_iternext_from_good f parse_reset);
        [apply good_reader_reset | | exact Hn].
    + rewrite length_app. simpl. lia.
    + rewrite length_app. simpl. lia.
  - injection H as <- <- <-. repeat split; auto.
Qed.

Lemma three_headers_inv lines hrows hc rest :
  three_headers lines = Ok (hrows, hc, rest) ->
  Forall (fun l => no_cr l = true) lines ->
  Forall (fun l => no_cr l = true) rest
  /\ Forall good_row hrows
  /\ hc = length hrows
  /\ hc <= 3.
Proof.
  unfold three_headers. intros H Hl.
  destruct (keep_header ([], 0, lines)) as [[[r1 c1] f1]|e] eqn:H1; [|done].
  rewrite result_bind_ok in H.
  destruct (keep_header (r1, c1, f1)) as [[[r2 c2] f2]|e] eqn:H2; [|done].
  rewrite result_bind_ok in H.
  destruct (keep_header_inv _ _ _ _ _ _ H1 Hl) as (Hf1 & Hr1 & Hc1 & Hn1);
    [constructor | done |].
  destruct (keep_header_inv _ _ _ _ _ _ H2 Hf1 Hr1 Hc1) as (Hf2 & Hr2 & Hc2 & Hn2).
  destruct (keep_header_inv _ _ _ _ _ _ H Hf2 Hr2 Hc2) as (Hf3 & Hr3 & Hc3 & Hn3).
  repeat split; auto. simpl in *. lia.
Qed.

Lemma index_from_good rows :
  Forall (Forall good_field) rows ->
  forall K text, index_from ∅ rows !! K = Some text -> good_field text.
Proof.
  intros Hrows K text H.
  destruct (index_from_origin K text rows ∅ H) as [H'|(r & Hin & _ & H1)].
  - by rewrite lookup_empty in H'.
  - rewrite Forall_forall in Hrows. specialize (Hrows r Hin).
    rewrite Forall_forall in Hrows. apply Hrows.
    by eapply list_elem_of_lookup_2.
Qed.

Lemma resolved_good tr rows :
  (forall K text, tr !! K = Some text -> good_field text) ->
  Forall (Forall good_field) rows ->
  Forall good_row (resolved tr rows).
Proof.
  intros Htr. induction rows as [|r rows IH]; intros H; [constructor|].
  apply Forall_cons in H as [Hr Hrows].
  destruct (decide (length r < 3)) as [Hs|Hl].
  - rewrite resolved_cons_short by done. by apply IH.
  - destruct r as [|k [|o [|f more]]]; simpl in Hl; try lia.
    rewrite resolved_cons_long. constructor; [|by apply IH].
    split; [done|].
    apply Forall_cons in Hr as [Hk Hr]. apply Forall_cons in Hr as [Ho Hr].
    apply Forall_cons in Hr as [Hf _].
    constructor; [done|]. constructor; [done|]. constructor; [|constructor].
    destruct (tr !! k) as [t|] eqn:Ht; simpl; [by eapply Htr | done].
Qed.

Lemma reader_rows_good content rows :
  reader_rows (open_text content) = (rows, None) ->
  Forall (Forall good_field) rows.
Proof.
  intros H. eapply (good_reader_rows_from _ parse_reset);
    [apply good_reader_reset | apply no_cr_open_text | exact H].
Qed.

(** A successful run of the merger of [translations.py]. *)
Lemma translations_build_run s m o w mc mrows sc hrows hc rest rows :
  files w !! m = Some mc ->
  reader_rows (open_text mc) = (mrows, None) ->
  files w !! s = Some sc ->
  three_headers (open_text sc) = Ok (hrows, hc, rest) ->
  reader_rows rest = (rows, None) ->
  let tr := index_from ∅ mrows in
  translations.build_translation_file s m o w =
    (set_file o (writerows (hrows ++ resolved tr rows))
       (say [MsgLoaded (size tr) m; MsgCreatedTranslation o; MsgPreserved hc;
             MsgUpdated (matched tr rows);
             MsgTotalRows (length (hrows ++ resolved tr rows))] w),
     Ok tt).
Proof.
  intros Hm Hmr Hs Hh Hr tr. unfold translations.build_translation_file.
  erewrite bind_ok by (by eapply load_translations_ok).
  fold tr. erewrite bind_ok by apply print_run.
  pose proof (translations_read_source_run s tr
                (say [MsgLoaded (size tr) m] w) sc Hs) as Hrs.
  rewrite Hh, Hr in Hrs.
  erewrite bind_ok by exact Hrs. cbv beta iota.
  erewrite bind_ok by apply translations_write_output_run.
  repeat (erewrite bind_ok by apply print_run).
  rewrite print_run. by rewrite !say_set_file, !say_say.
Qed.

(** X12. What the merger of [translations.py] writes is one table: read
    with [csv.reader] (as the tools themselves read), the output gives back,
    record for record, the header records the merger kept followed by the
    data rows it resolved.  It keeps at most three header records, a blank
    header line being read as an empty record and dropped, and the total it
    reports counts header records and data rows together. *)
Theorem X12_translations_output_reads_back (s m o : string) (w : world)
    (mc sc : string) (mrows hrows rows : list row) (hc : nat)
    (rest : textfile) :
  files w !! m = Some mc ->
  reader_rows (open_text mc) = (mrows, None) ->
  files w !! s = Some sc ->
  three_headers (open_text sc) = Ok (hrows, hc, rest) ->
  reader_rows rest = (rows, None) ->
  exists w' out tr matched_count data_rows,
    translations.read_source s tr w =
      (w, Ok (hrows ++ data_rows, hc, matched_count))
    /\ translations.build_translation_file s m o w = (w', Ok tt)
    /\ files w' !! o = Some out
    /\ reader_rows (open_text out) = (hrows ++ data_rows, None)
    /\ hc = length hrows
    /\ hc <= 3
    /\ Forall (fun r => r <> []) hrows
    /\ length data_rows = length (retained rows)
    /\ last (console w') = Some (MsgTotalRows (hc + length (retained rows))).
Proof.
  intros Hm Hmr Hs Hh Hr.
  destruct (three_headers_inv _ _ _ _ Hh (no_cr_open_text sc))
    as (Hrest & Hhrows & Hhc & Hle).
  set (tr := index_from ∅ mrows).
  assert (Hds : Forall good_row (resolved tr rows)).
  { apply resolved_good.
    - apply index_from_good. by eapply reader_rows_good.
    - eapply (good_reader_rows_from rest parse_reset);
        [apply good_reader_reset | done | exact Hr]. }
  eexists _, _, tr, _, (resolved tr rows).
  split; [|split; [|split; [|split; [|split; [|split; [|split; [|split]]]]]]].
  - rewrite (translations_read_source_run s tr w sc Hs), Hh, Hr. done.
  - by eapply translations_build_run.
  - apply set_file_lookup.
  - apply reader_rows_writerows, Forall_app. by split.
  - done.
  - done.
  - eapply Forall_impl; [exact Hhrows|]. by intros r [? _].
  - apply resolved_length.
  - simpl. rewrite last_app_cons. simpl.
    rewrite length_app, resolved_length. by subst hc.
Qed.

Lemma X12_witness :
  exists w' out tr matched_count data_rows,
    translations.read_source "src.csv" tr demo_world =
      (demo_world,
       Ok ([["Language"]; ["NormalText"]] ++ data_rows, 2, matched_count))
    /\ translations.build_translation_file "src.csv" "map.csv" "out.csv"
         demo_world = (w', Ok tt)
    /\ files w' !! "out.csv" = Some out
    /\ reader_rows (open_text out) =
         ([["Language"]; ["NormalText"]] ++ data_rows, None)
    /\ 2 = length [["Language"]; ["NormalText"]]
    /\ 2 <= 3
    /\ Forall (fun r => r <> []) [["Language"]; ["NormalText"]]
    /\ length data_rows =
         length (retained [["k1"; "hello"; "salut"]; ["k2"; "short"];
                           ["k3"; "bye"; "adieu"; "extra"]])
    /\ last (console w') =
         Some (MsgTotalRows
                 (2 + length (retained [["k1"; "hello"; "salut"]; ["k2"; "short"];
                                        ["k3"; "bye"; "adieu"; "extra"]]))).
Proof.
  apply (X12_translations_output_reads_back "src.csv" "map.csv" "out.csv"
           demo_world demo_mapping demo_source [["k3"; "farewell"]; ["lonely"]]
           [["Language"]; ["NormalText"]]
           [["k1"; "hello"; "salut"]; ["k2"; "short"];
            ["k3"; "bye"; "adieu"; "extra"]]
           2
           ["k1,hello,salut" +:+ str1 LF; "k2,short" +:+ str1 LF;
            "k3,bye,adieu,extra" +:+ str1 LF]);
    reflexivity.
Defined.

(** ** Merging the output again *)

Lemma no_cr_join_lines ls :
  Forall (fun l => no_cr l = true) ls -> no_cr (join_lines ls) = true.
Proof.
  induction ls as [|l ls IH]; intros H; [done|].
  apply Forall_cons in H as [Hl Hls]. simpl.
  by rewrite no_cr_append, Hl, IH.
Qed.

Lemma splitlines_header_then s x :
  (drop 3 (splitlines s) = [] -> x = EmptyString) ->
  splitlines (join_lines (take 3 (splitlines s)) +:+ x) =
    take 3 (splitlines s) ++ splitlines x.
Proof.
  intros Hx. pose proof (join_lines_splitlines s) as Hj.
  destruct (splitlines s) as [|l1 [|l2 [|l3 [|l4 rest]]]] eqn:Hs.
  1-4: rewrite (Hx eq_refl), append_nil_r;
       match goal with
       | |- context [join_lines (take 3 ?L)] =>
           rewrite (take_ge L 3) by (simpl; lia)
       end; by rewrite Hj, Hs, app_nil_r.
  destruct (splitlines_inner_line s _ _ Hs) as [H1 [s1 Hs1]]; [done|].
  destruct (splitlines_inner_line s1 _ _ Hs1) as [H2 [s2 Hs2]]; [done|].
  destruct (splitlines_inner_line s2 _ _ Hs2) as [H3 _]; [done|].
  simpl take. simpl join_lines. rewrite append_nil_r, !append_assoc.
  by rewrite !splitlines_complete_line.
Qed.

Lemma transcmd_read_header_again (L : list string) x :
  Forall (fun l => l <> EmptyString) L ->
  (drop 3 L = [] -> x = EmptyString) ->
  transcmd.read_header (take 3 L ++ splitlines x) = (take 3 L, splitlines x).
Proof.
  intros HL Hx. rewrite transcmd_read_header_lines.
  - destruct L as [|l1 [|l2 [|l3 rest]]]; try (by rewrite (Hx eq_refl)).
    done.
  - apply Forall_app. split; [by apply Forall_take|].
    apply splitlines_no_empty_line.
Qed.

Lemma resolved_again tr rows : resolved tr (resolved tr rows) = resolved tr rows.
Proof.
  induction rows as [|r rows IH]; [done|].
  destruct (decide (length r < 3)) as [Hs|Hl].
  - by rewrite resolved_cons_short.
  - destruct r as [|k [|o [|f more]]]; simpl in Hl; try lia.
    rewrite !resolved_cons_long, IH. by destruct (tr !! k).
Qed.

Lemma written_lf_nil_inv ds : ds = [] -> written_lf ds = EmptyString.
Proof. by intros ->. Qed.

Lemma open_text_merged_output sc tr rows :
  reader_rows (drop 3 (open_text sc)) = (rows, None) ->
  Forall good_row (resolved tr rows) ->
  open_text (join_lines (take 3 (open_text sc)) +:+ writerows (resolved tr rows)) =
    take 3 (open_text sc) ++ splitlines (written_lf (resolved tr rows))
  /\ (drop 3 (open_text sc) = [] ->
      written_lf (resolved tr rows) = EmptyString).
Proof.
  intros Hr Hds.
  assert (Hx : drop 3 (open_text sc) = [] ->
               written_lf (resolved tr rows) = EmptyString).
  { intros Hd. rewrite Hd in Hr. by injection Hr as <-. }
  split; [|done].
  unfold open_text at 1, universal_newlines.
  rewrite translate_no_cr_append
    by (apply no_cr_join_lines, Forall_take, no_cr_open_text).
  fold (universal_newlines (writerows (resolved tr rows))).
  rewrite universal_newlines_writerows.
  - unfold open_text. apply splitlines_header_then. exact Hx.
  - eapply Forall_impl; [exact Hds|]. intros r [_ Hg].
    eapply Forall_impl; [exact Hg|]. by intros f [_ ?].
Qed.

(** X13. Merging is idempotent in [transcmd.py]: run again with the same
    mapping file on its own output as the source, the merger writes the same
    text again, character for character (so a run whose output path is that
    very file leaves it as it is).  This holds for every source, whatever its
    line ends: the header lines, once written with LF, are copied as they
    are, and each data row is resolved to the text it already has. *)
Theorem X13_merging_the_output_again (s m o o2 : string) (w w1 : world) :
  o <> m ->
  transcmd.build_translation_file s m o w = (w1, Ok tt) ->
  exists out w2,
    files w1 !! o = Some out
    /\ transcmd.build_translation_file o m o2 w1 = (w2, Ok tt)
    /\ files w2 !! o2 = Some out.
Proof.
  intros Hom Hrun.
  pose proof (transcmd_build_outcome s m o w) as Ho. rewrite Hrun in Ho.
  inversion Ho as [mc mrows sc hdr rest rows w' Hm Hmr Hs Hh Hr Hf|]; subst.
  rewrite transcmd_read_header_open_text in Hh. injection Hh as <- <-.
  set (tr := index_from ∅ mrows) in *.
  set (ds := resolved tr rows) in *.
  assert (Hds : Forall good_row ds).
  { apply resolved_good.
    - apply index_from_good. by eapply reader_rows_good.
    - eapply (good_reader_rows_from _ parse_reset);
        [apply good_reader_reset | | exact Hr].
      apply Forall_drop, no_cr_open_text. }
  destruct (open_text_merged_output sc tr rows Hr Hds) as [Hopen Hx].
  fold ds in Hopen, Hx.
  set (out := join_lines (take 3 (open_text sc)) +:+ writerows ds) in *.
  assert (Ho1 : files w1 !! o = Some out) by (rewrite Hf; apply lookup_insert_eq).
  assert (Hm1 : files w1 !! m = Some mc)
    by (rewrite Hf, lookup_insert_ne; done).
  assert (Hh1 : transcmd.read_header (open_text out) =
                (take 3 (open_text sc), splitlines (written_lf ds))).
  { rewrite Hopen. apply transcmd_read_header_again; [|done].
    apply splitlines_no_empty_line. }
  assert (Hr1 : reader_rows (splitlines (written_lf ds)) = (ds, None)).
  { apply read_text_written. eapply Forall_impl; [exact Hds|].
    intros r [Hne Hg]. split; [done|].
    eapply Forall_impl; [exact Hg|]. by intros f [? _]. }
  exists out. eexists. split; [done|]. split.
  - by eapply (transcmd_build_run o m o2 w1).
  - fold tr. rewrite set_file_lookup. unfold ds. by rewrite resolved_again.
Qed.

Lemma X13_witness :
  exists out w2,
    files (transcmd.build_translation_file "src.csv" "map.csv" "out.csv"
             crlf_world).1 !! "out.csv" = Some out
    /\ transcmd.build_translation_file "out.csv" "map.csv" "out.csv"
         (transcmd.build_translation_file "src.csv" "map.csv" "out.csv"
            crlf_world).1 = (w2, Ok tt)
    /\ files w2 !! "out.csv" = Some out.
Proof.
  apply (X13_merging_the_output_again "src.csv" "map.csv" "out.csv" "out.csv"
           crlf_world
           (transcmd.build_translation_file "src.csv" "map.csv" "out.csv"
              crlf_world).1).
  - discriminate.
  - vm_compute. reflexivity.
Defined.

(** ** Extract, then merge with [translations.py] *)

Lemma keep_header_of_skip rows hc f rest :
  skip_record f = Ok rest ->
  exists rows' hc', keep_header (rows, hc, f) = Ok (rows', hc', rest).
Proof.
  unfold skip_record, keep_header.
  destruct (Reader_iternext f) as [[[[|x r]|] rest']|e]; intros [= <-];
    by eexists _, _.
Qed.

Lemma three_headers_of_skip lines rest :
  skip_headers lines = Ok rest ->
  exists hrows hc, three_headers lines = Ok (hrows, hc, rest).
Proof.
  unfold skip_headers, three_headers. intros H.
  destruct (skip_record lines) as [l1|e] eqn:H1; [|done].
  rewrite result_bind_ok in H.
  destruct (skip_record l1) as [l2|e] eqn:H2; [|done].
  rewrite result_bind_ok in H.
  destruct (keep_header_of_skip [] 0 lines l1 H1) as (r1 & c1 & E1).
  destruct (keep_header_of_skip r1 c1 l1 l2 H2) as (r2 & c2 & E2).
  destruct (keep_header_of_skip r2 c2 l2 rest H) as (r3 & c3 & E3).
  exists r3, c3. by rewrite E1, result_bind_ok, E2, result_bind_ok.
Qed.

Lemma extractor_then_load source mapping w w1 :
  source <> mapping ->
  create_mapping_file source mapping w = (w1, Ok tt) ->
  exists sc rest rows,
    files w !! source = Some sc
    /\ files w1 !! source = Some sc
    /\ skip_headers (open_text sc) = Ok rest
    /\ reader_rows rest = (rows, None)
    /\ files w1 !! mapping = Some (writerows (extracted rows))
    /\ load_translations mapping w1 = (w1, Ok (index_from ∅ (extracted rows))).
Proof.
  intros Hne Hrun.
  destruct (create_mapping_file_inv source mapping w w1 Hne Hrun)
    as (sc & rest & rows & Hs & Hskip & Hr & ->).
  set (w1 := say _ _).
  assert (Hs1 : files w1 !! source = Some sc).
  { unfold w1, say, set_file. simpl. by rewrite lookup_insert_ne. }
  assert (Hm1 : files w1 !! mapping = Some (writerows (extracted rows))).
  { unfold w1, say, set_file. simpl. apply lookup_insert_eq. }
  exists sc, rest, rows. repeat split; try done.
  eapply load_translations_ok; [exact Hm1|].
  apply reader_rows_writerows, extracted_good.
  eapply (good_reader_rows_from rest parse_reset);
    [apply good_reader_reset | | exact Hr].
  eapply skip_headers_rest; [apply no_cr_open_text | exact Hskip].
Qed.

(** X14. The extractor and the merger of [translations.py] skip the
    header the same way, record by record, so they agree on the data rows of
    every source.  After the extractor has run, that merger, given the
    mapping file as the extractor left it, resolves every data row to its own
    original text as soon as the keys of the data rows are pairwise distinct;
    no condition on the header lines is needed. *)
Theorem X14_round_trip_with_translations (source mapping : string)
    (w w1 : world) :
  source <> mapping ->
  create_mapping_file source mapping w = (w1, Ok tt) ->
  exists sc rest rows tr hrows hc,
    files w !! source = Some sc
    /\ skip_headers (open_text sc) = Ok rest
    /\ three_headers (open_text sc) = Ok (hrows, hc, rest)
    /\ reader_rows rest = (rows, None)
    /\ files w1 !! mapping = Some (writerows (extracted rows))
    /\ load_translations mapping w1 = (w1, Ok tr)
    /\ (NoDup (map key_of (retained rows)) ->
        exists matched_count,
          translations.read_source source tr w1 =
            (w1, Ok (hrows ++
                     map (fun r => [key_of r; original_of r; original_of r])
                         (retained rows),
                     hc, matched_count))).
Proof.
  intros Hne Hrun.
  destruct (extractor_then_load source mapping w w1 Hne Hrun)
    as (sc & rest & rows & Hs & Hs1 & Hskip & Hr & Hm1 & Hload).
  destruct (three_headers_of_skip _ _ Hskip) as (hrows & hc & Hh).
  exists sc, rest, rows, (index_from ∅ (extracted rows)), hrows, hc.
  repeat split; try done.
  intros Hnd. eexists.
  rewrite (translations_read_source_run source _ w1 sc Hs1), Hh, Hr.
  by rewrite resolved_unique.
Qed.

Lemma X14_witness :
  exists sc rest rows tr hrows hc,
    files (mkWorld {[ "src.csv" := open_quote_source ]} []) !! "src.csv" = Some sc
    /\ skip_headers (open_text sc) = Ok rest
    /\ three_headers (open_text sc) = Ok (hrows, hc, rest)
    /\ reader_rows rest = (rows, None)
    /\ files (create_mapping_file "src.csv" "map.csv"
                (mkWorld {[ "src.csv" := open_quote_source ]} [])).1 !! "map.csv" =
         Some (writerows (extracted rows))
    /\ load_translations "map.csv"
         (create_mapping_file "src.csv" "map.csv"
            (mkWorld {[ "src.csv" := open_quote_source ]} [])).1 =
         ((create_mapping_file "src.csv" "map.csv"
             (mkWorld {[ "src.csv" := open_quote_source ]} [])).1, Ok tr)
    /\ (NoDup (map key_of (retained rows)) ->
        exists matched_count,
          translations.read_source "src.csv" tr
            (create_mapping_file "src.csv" "map.csv"
               (mkWorld {[ "src.csv" := open_quote_source ]} [])).1 =
            ((create_mapping_file "src.csv" "map.csv"
                (mkWorld {[ "src.csv" := open_quote_source ]} [])).1,
             Ok (hrows ++
                 map (fun r => [key_of r; original_of r; original_of r])
                     (retained rows),
                 hc, matched_count))).
Proof.
  apply (X14_round_trip_with_translations "src.csv" "map.csv"
           (mkWorld {[ "src.csv" := open_quote_source ]} [])
           (create_mapping_file "src.csv" "map.csv"
              (mkWorld {[ "src.csv" := open_quote_source ]} [])).1).
  - discriminate.
  - vm_compute. reflexivity.
Defined.

(** ** The exceptions a run can end with *)

























Lemma long_field_ordinary : all_ordinary long_field = true.
Proof. vm_compute. reflexivity. Qed.

Lemma long_field_too_long :
  (field_limit < N.of_nat (String.length long_field))%N.
Proof. vm_compute. reflexivity. Qed.






(** ** The extractor stopped by the reader *)

Lemma long_line_world_src :
  files long_line_world !! "src.csv" = Some long_line_source.
Proof. unfold long_line_world. cbn [files]. apply lookup_singleton_eq. Qed.

Lemma long_tail_rest (t : string) :
  all_ordinary t = true ->
  (field_limit < N.of_nat (String.length t))%N ->
  skip_headers
    (open_text ("h1" +:+ str1 LF +:+ "h2" +:+ str1 LF +:+ "h3" +:+ str1 LF
                +:+ "k1,a,b" +:+ str1 LF +:+ t)) =
    Ok ["k1,a,b" +:+ str1 LF; t].
Proof.
  intros Hord Hlen. unfold open_text.
  rewrite universal_newlines_no_cr
    by (rewrite !no_cr_append, (all_ordinary_no_cr t Hord); reflexivity).
  destruct t as [|c t]; [simpl in Hlen; unfold field_limit in Hlen; lia|].
  assert (Hsp :
    splitlines ("h1" +:+ str1 LF +:+ "h2" +:+ str1 LF +:+ "h3" +:+ str1 LF
                +:+ "k1,a,b" +:+ str1 LF +:+ String c t) =
      ["h1" +:+ str1 LF; "h2" +:+ str1 LF; "h3" +:+ str1 LF;
       "k1,a,b" +:+ str1 LF; String c t]).
  { change (splitlines (("h1" +:+ str1 LF) +:+ ("h2" +:+ str1 LF) +:+
                        ("h3" +:+ str1 LF) +:+ ("k1,a,b" +:+ str1 LF) +:+
                        String c t) =
            ["h1" +:+ str1 LF; "h2" +:+ str1 LF; "h3" +:+ str1 LF;
             "k1,a,b" +:+ str1 LF; String c t]).
    rewrite !splitlines_complete_line by reflexivity.
    by rewrite splitlines_one_line. }
  rewrite Hsp. by apply skip_headers_record_lines.
Qed.

Lemma long_line_source_rest :
  skip_headers (open_text long_line_source) =
    Ok ["k1,a,b" +:+ str1 LF; long_field].
Proof. exact (long_tail_rest long_field long_field_ordinary long_field_too_long). Qed.

Lemma long_line_source_rows :
  reader_rows ["k1,a,b" +:+ str1 LF; long_field] =
    ([["k1"; "a"; "b"]], Some (csv_Error FieldLimit)).
Proof.
  rewrite reader_rows_next.
  change (Reader_iternext ["k1,a,b" +:+ str1 LF; long_field])
    with (Ok (Some ["k1"; "a"; "b"], [long_field]) :
            result (option (list string) * textfile)).
  cbv beta iota.
  by rewrite (reader_rows_long_line long_field []
                long_field_ordinary long_field_too_long).
Qed.

(** X17. The extractor writes each pair as it reads the record: when the
    reader raises in the middle of the source, the mapping file is left
    with the pairs of the records read before the error, nothing is
    printed, and the exception leaves the function. *)
Theorem X17_extractor_stopped_midway (source mapping : string) (w : world)
    (sc : string) (rest : textfile) (rows : list row) (e : exn) :
  source <> mapping ->
  files w !! source = Some sc ->
  skip_headers (open_text sc) = Ok rest ->
  reader_rows rest = (rows, Some e) ->
  create_mapping_file source mapping w =
    (mkWorld
       (<[mapping := writerows (map (fun r => [key_of r; original_of r])
                                    (retained rows))]> (files w))
       (console w),
     Raise e).
Proof.
  intros Hne Hs Hskip Hr.
  rewrite (create_mapping_file_run source mapping w sc Hne Hs), Hskip, Hr.
  by rewrite extracted_pairs.
Qed.

Lemma X17_witness :
  create_mapping_file "src.csv" "map.csv" long_line_world =
    (mkWorld
       (<["map.csv" := writerows (map (fun r => [key_of r; original_of r])
                                    (retained [["k1"; "a"; "b"]]))]>
          (files long_line_world))
       (console long_line_world),
     Raise (csv_Error FieldLimit)).
Proof.
  apply (X17_extractor_stopped_midway "src.csv" "map.csv" long_line_world
           long_line_source ["k1,a,b" +:+ str1 LF; long_field]
           [["k1"; "a"; "b"]] (csv_Error FieldLimit));
    [discriminate | exact long_line_world_src | exact long_line_source_rest
    | exact long_line_source_rows].
Defined.

(** ** The command line of [translations.py] *)

(** X18. On the create command the two programs are one function of the
    source and mapping paths: [main] of [translations.py] takes the mapping
    path from the fourth word of the command line, or the default name when
    there is none, ignores any further word, and then does what [main] of
    [transcmd.py] does with these two paths. *)
Theorem X18_create_commands_agree (prog cmd source : string)
    (more : list string) (w : world) :
  translations.lower cmd = "create" ->
  translations.main (prog :: cmd :: source :: more) w =
    transcmd.main
      (transcmd.Create source (hd "translations_to_edit.csv" more)) w.
Proof.
  intros Hcmd. unfold translations.main, transcmd.main.
  rewrite bool_decide_eq_false_2 by (simpl; lia).
  io_simpl. rewrite Hcmd. simpl. rewrite !ret_bind.
  destruct more as [|mp more]; simpl.
  - by rewrite ret_bind.
  - by erewrite bind_ok by reflexivity.
Qed.

Lemma X18_witness :
  translations.main ["translations.py"; "Create"; "src.csv"] demo_world_lf =
    transcmd.main
      (transcmd.Create "src.csv" (hd "translations_to_edit.csv" []))
      demo_world_lf.
Proof.
  apply (X18_create_commands_agree "translations.py" "Create" "src.csv" []
           demo_world_lf).
  reflexivity.
Defined.

(** X19. A command line that [translations.py] cannot use costs nothing:
    with no command word, with a word that is neither command, or with a
    command short of its required paths, [main] returns normally after
    printing one complaint, and no file is opened, let alone written. *)
Theorem X19_unusable_command_line (argv : list string) (w w' : world)
    (r : result unit) :
  length argv < 2
  \/ (exists c, argv !! 1 = Some c /\
        (translations.lower c = "create" /\ length argv < 3
         \/ translations.lower c = "build" /\ length argv < 4
         \/ translations.lower c <> "create" /\
            translations.lower c <> "build")) ->
  translations.main argv w = (w', r) ->
  r = Ok tt /\ files w' = files w /\ exists m, console w' = console w ++ [m].
Proof.
  intros Hbad. unfold translations.main.
  case_bool_decide as Hlen2.
  { intros [= <- <-]. simpl. eauto. }
  destruct Hbad as [?|(c & Hc & Hbad)]; [lia|].
  destruct argv as [|a0 [|a1 argv]]; simpl in Hlen2; try lia.
  simpl in Hc. injection Hc as ->. io_simpl.
  destruct Hbad as [[Hcmd Hlen]|[[Hcmd Hlen]|[Hn1 Hn2]]].
  - rewrite Hcmd. simpl. rewrite bool_decide_eq_true_2 by done.
    intros [= <- <-]. simpl. eauto.
  - rewrite Hcmd. simpl. rewrite bool_decide_eq_true_2 by done.
    intros [= <- <-]. simpl. eauto.
  - rewrite (proj2 (String.eqb_neq _ _) Hn1), (proj2 (String.eqb_neq _ _) Hn2).
    intros [= <- <-]. simpl. eauto.
Qed.

Lemma X19_witness :
  Ok tt = Ok tt /\ files demo_world_lf = files demo_world_lf /\
  exists m, console (say [MsgMissingArguments] demo_world_lf) =
              console demo_world_lf ++ [m].
Proof.
  apply (X19_unusable_command_line ["translations.py"; "BUILD"; "src.csv"]
           demo_world_lf (say [MsgMissingArguments] demo_world_lf) (Ok tt)).
  - right. exists "BUILD". split; [reflexivity|].
    right. left. split; [reflexivity | simpl; lia].
  - reflexivity.
Defined.
